(** * Bulk policy enforcement scripts: S3 lifecycle rules and CloudWatch
      log retention

    A shallow embedding of the five scripts of the repository

      - [S3/s3_expire.py], [S3/s3_glacier_expire.py],
        [S3/s3_policy_set_prompts.py]
      - [cloudwatch/cloudwatch_log_grp_rete_all_1m_non_prod.py],
        [cloudwatch/cw_log_grp_ret_target_1m_2m_3m.py]

    Python statements become computations in a small monad that threads the
    state of the outside world (AWS, the file system), records every
    interaction in a trace, and propagates exceptions.  The AWS SDK, the
    file system and the terminal are an interface ([aws]) that the scripts
    are parameterised by; all theorems hold for every implementation of it. *)

From Stdlib Require Import ZArith List String Ascii Bool Lia.
Import ListNotations.
Local Open Scope string_scope.
Local Open Scope Z_scope.
Local Open Scope list_scope.

Set Implicit Arguments.

(** ** Python values that the scripts handle *)

(** Exceptions that are instances of Python's [Exception].  [SystemExit],
    raised by [sys.exit], is not one of them: no [except] clause of the
    scripts catches it, and it is a separate outcome below. *)
Inductive exn : Type :=
| ClientError (code : string)       (* botocore.exceptions.ClientError *)
| BotoCoreError (what : string)     (* ProfileNotFound, NoRegionError, ... *)
| FileNotFoundError (path : string)
| OSError (what : string)
| IndexError                        (* list index out of range *)
| EOFError                          (* input() at end of input *)
| ValueError                        (* int() on a non-number *)
| UnboundLocalError (var : string)
| Exception (msg : string).         (* raise Exception(f"...") *)

Definition is_ClientError (e : exn) : bool :=
  match e with ClientError _ => true | _ => false end.

Definition is_FileNotFoundError (e : exn) : bool :=
  match e with FileNotFoundError _ => true | _ => false end.

(** How a Python computation ends. *)
Inductive outcome (A : Type) : Type :=
| Ok (a : A)
| Raise (e : exn)
| Exit (code : Z).                  (* sys.exit(code) *)

Arguments Ok {A} a.
Arguments Raise {A} e.
Arguments Exit {A} code.

(** The status the interpreter hands to the operating system: 0 when the
    script runs to its end, the argument of [sys.exit], and 1 when an
    exception reaches the top level. *)
Definition exit_status {A} (o : outcome A) : Z :=
  match o with
  | Ok _ => 0
  | Raise _ => 1
  | Exit code => code
  end.

(** One entry of a CloudWatch [describe_log_groups] page.  The SDK leaves
    the key [retentionInDays] out of the dictionary when the group never
    expires. *)
Record log_group : Type := LogGroup {
  logGroupName : string;
  retentionInDays : option Z
}.

(** The [LifecycleConfiguration] dictionaries built by the S3 scripts: one
    rule, with the keys the scripts use.  A key that a script leaves out is
    [None]; the key ['Filter'], which is the empty dictionary in every
    script, is not represented. *)
Record transition : Type := Transition {
  Days : Z;
  StorageClass : string
}.

Record lifecycle_rule : Type := Rule {
  ID : string;
  Status : string;
  Transitions : option (list transition);
  Expiration_Days : Z;
  NoncurrentVersionTransitions : option (list transition);
  NoncurrentVersionExpiration_NoncurrentDays : Z
}.

Record lifecycle_configuration : Type := LifecycleConfiguration {
  Rules : list lifecycle_rule
}.

(** ** Interactions with the outside world *)

(** Calls that leave the process. *)
Inductive call : Type :=
| OpenCsv (csv_file_path : string)
| Session (profile : string)
| S3Client (profile : string)
| LogsClient (profile region : string)
| HeadBucket (profile bucket : string)
| PutBucketLifecycleConfiguration
    (profile bucket : string) (config : lifecycle_configuration)
| DescribeLogGroups (profile region : string)
| PutRetentionPolicy (profile region logGroupName : string) (days : Z)
| SetupLogging (profile : string).

(** What came back. *)
Inductive reply : Type :=
| Returned
| ReturnedRows (rows : list (list string))
| ReturnedPage (logGroups : list log_group)
| Raised (e : exn).

(** The messages given to [logging]; one constructor for each f-string of
    the scripts, carrying the values it interpolates. *)
Inductive log_msg : Type :=
| MsgPolicyCreated (profile bucket : string)
| MsgPolicyError (profile bucket : string) (e : exn)
| MsgProcessingBucket (bucket : string)
| MsgUsingProfile (profile : string)
| MsgBucketInaccessible (profile bucket : string) (e : exn)
| MsgCsvNotFound (path : string)
| MsgUnexpected (e : exn)
| MsgUsage
| MsgStarting
| MsgCompleted
| MsgTerminated (e : exn)
| MsgSettingRetention (profile logGroupName : string) (days : Z)
| MsgSettingRetentionFrom (profile logGroupName : string) (from to : Z)
| MsgSkipping (profile logGroupName : string) (retention : option Z)
| MsgRegionError (region profile : string) (e : exn)
| MsgTraceback
| MsgStarted (profile : string)
| MsgProcessingRegion (region : string)
| MsgProfileComplete (profile : string)
| MsgProfileError (profile : string) (e : exn).

Inductive event : Type :=
| Api (c : call) (r : reply)
| LogInfo (m : log_msg)
| LogError (m : log_msg)
| Print (s : string)
| Input (prompt answer : string).

(** ** The monad of scripts *)

Section Script.

Variable W : Type.   (* states of the outside world *)

(** A computation starts in a world and ends with an outcome, a world and
    the events it caused, oldest first. *)
Definition M (A : Type) : Type := W -> outcome A * W * list event.

Definition ret {A} (a : A) : M A := fun w => (Ok a, w, []).

Definition bind {A B} (m : M A) (k : A -> M B) : M B :=
  fun w =>
    match m w with
    | (Ok a, w1, t1) =>
        match k a w1 with (r, w2, t2) => (r, w2, t1 ++ t2) end
    | (Raise e, w1, t1) => (Raise e, w1, t1)
    | (Exit c, w1, t1) => (Exit c, w1, t1)
    end.

Definition raise {A} (e : exn) : M A := fun w => (Raise e, w, []).

Definition sys_exit {A} (code : Z) : M A := fun w => (Exit code, w, []).

(** [try: body  except Exception as e: handler e].  Every [exn] is an
    [Exception]; clauses for a narrower class test the class in the handler
    and raise [e] again otherwise, which is what Python does with an
    exception no clause matches. *)
Definition try_except {A} (body : M A) (handler : exn -> M A) : M A :=
  fun w =>
    match body w with
    | (Raise e, w1, t1) =>
        match handler e w1 with (r, w2, t2) => (r, w2, t1 ++ t2) end
    | r => r
    end.

Definition emit (e : event) : M unit := fun w => (Ok tt, w, [e]).

Definition log_info (m : log_msg) : M unit := emit (LogInfo m).
Definition log_error (m : log_msg) : M unit := emit (LogError m).
Definition print (s : string) : M unit := emit (Print s).

(** [for x in xs: body x] *)
Fixpoint for_each {A} (xs : list A) (body : A -> M unit) : M unit :=
  match xs with
  | [] => ret tt
  | x :: rest => bind (body x) (fun _ => for_each rest body)
  end.

End Script.

Arguments ret {W A} a.
Arguments raise {W A} e.
Arguments sys_exit {W A} code.
Arguments emit {W} e.
Arguments log_info {W} m.
Arguments log_error {W} m.
Arguments print {W} s.

Declare Scope script_scope.
Delimit Scope script_scope with script.
Notation "x <- m ;; k" := (bind m (fun x => k))
  (at level 61, m at next level, right associativity) : script_scope.
Notation "m ;; k" := (bind m (fun _ => k))
  (at level 61, right associativity) : script_scope.
Local Open Scope script_scope.

Definition result_of {W A} (r : outcome A * W * list event) : outcome A :=
  fst (fst r).
Definition world_of {W A} (r : outcome A * W * list event) : W :=
  snd (fst r).
Definition events_of {W A} (r : outcome A * W * list event) : list event :=
  snd r.

(** ** The outside world *)

(** The lazy iterator returned by [paginator.paginate()]: each step asks
    the service for one more page, in the world as it then is, and the
    service answers with a page or with an error; [NoMorePages] is the
    end of the iteration, after a page that had no continuation token, and
    no request is made then.  A listing always ends. *)
Inductive page_stream (W : Type) : Type :=
| Fetch (next : W -> page_result W)
with page_result (W : Type) : Type :=
| NoMorePages
| FetchError (w' : W) (e : exn)
| Page (w' : W) (logGroups : list log_group) (rest : page_stream W).

Arguments NoMorePages {W}.

(** An operation of the SDK or the operating system: it may fail and it
    may change the world. *)
Definition operation (W A : Type) : Type := W -> (exn + A) * W.

Record aws (W : Type) : Type := Aws {
  open_csv : string -> operation W (list (list string));
  session : string -> operation W unit;
  s3_client : string -> operation W unit;
  logs_client : string -> string -> operation W unit;
  head_bucket : string -> string -> operation W unit;
  put_bucket_lifecycle_configuration :
    string -> string -> lifecycle_configuration -> operation W unit;
  describe_log_groups : string -> string -> page_stream W;
  put_retention_policy : string -> string -> string -> Z -> operation W unit;
  file_handler : string -> operation W unit
}.

Section Calls.

Variable W : Type.

(** Performing an operation records the call and its reply. *)
Definition invoke {A} (c : call) (shown : A -> reply) (op : operation W A)
  : M W A :=
  fun w =>
    match op w with
    | (inr a, w') => (Ok a, w', [Api c (shown a)])
    | (inl e, w') => (Raise e, w', [Api c (Raised e)])
    end.

Definition done (_ : unit) : reply := Returned.

(** [for page in paginator.paginate(): body page['logGroups']] *)
Fixpoint for_each_page (profile region : string)
    (pages : page_stream W) (body : list log_group -> M W unit) : M W unit :=
  match pages with
  | Fetch next => fun w =>
      match next w with
      | NoMorePages => (Ok tt, w, [])
      | FetchError w' e =>
          (Raise e, w', [Api (DescribeLogGroups profile region) (Raised e)])
      | Page w' logGroups rest =>
          (emit (Api (DescribeLogGroups profile region)
                     (ReturnedPage logGroups)) ;;
           body logGroups ;;
           for_each_page profile region rest body) w'
      end
  end.

End Calls.

(** ** Built-ins of Python used by the scripts *)

(** [str.isspace] on one character.  Characters are code points below 256:
    the ASCII white space (tab to carriage return, the four separators
    28 to 31, the space) and the two of Latin-1 (next line 133, no-break
    space 160). *)
Definition is_space (c : ascii) : bool :=
  let n := N_of_ascii c in
  (((9 <=? n) && (n <=? 13)) || ((28 <=? n) && (n <=? 31)) ||
   (n =? 32) || (n =? 133) || (n =? 160))%N.

Fixpoint lstrip (s : string) : string :=
  match s with
  | EmptyString => EmptyString
  | String c rest => if is_space c then lstrip rest else s
  end.

Fixpoint rstrip (s : string) : string :=
  match s with
  | EmptyString => EmptyString
  | String c rest =>
      match rstrip rest with
      | EmptyString => if is_space c then EmptyString else String c EmptyString
      | kept => String c kept
      end
  end.

(** [s.strip()] *)
Definition strip (s : string) : string := rstrip (lstrip s).

(** [not s] for a string: true exactly for the empty string. *)
Definition is_empty (s : string) : bool :=
  match s with EmptyString => true | String _ _ => false end.

(** [x in xs] for a list of strings. *)
Definition str_in (x : string) (xs : list string) : bool :=
  existsb (String.eqb x) xs.

(** [int(s)] on the strings the scripts give it, which are made of decimal
    digits; any other string is a [ValueError] here. *)
Definition digit_value (c : ascii) : option Z :=
  let n := Z.of_N (N_of_ascii c) in
  if (48 <=? n) && (n <=? 57) then Some (n - 48) else None.

Fixpoint int_digits (acc : Z) (s : string) : option Z :=
  match s with
  | EmptyString => Some acc
  | String c rest =>
      match digit_value c with
      | Some d => int_digits (10 * acc + d) rest
      | None => None
      end
  end.

Definition int (s : string) : exn + Z :=
  match s with
  | EmptyString => inl ValueError
  | _ => match int_digits 0 s with Some n => inr n | None => inl ValueError end
  end.

(** ** The S3 scripts *)

(** [create_lifecycle_policy], [process_buckets] and [main] are the same
    text in the three S3 scripts up to the dictionary that
    [create_lifecycle_policy] builds, which is the variable
    [lifecycle_config] here, and the module constant [AWS_PROFILES]. *)
Module S3.
Section Driver.

Variable W : Type.
Variable sdk : aws W.
Variable AWS_PROFILES : list string.
Variable lifecycle_config : string -> lifecycle_configuration.

Definition create_lifecycle_policy (bucket_name profile : string)
  : M W unit :=
  let config := lifecycle_config bucket_name in
  try_except
    (invoke (PutBucketLifecycleConfiguration profile bucket_name config)
            done
            (put_bucket_lifecycle_configuration sdk profile bucket_name
                                                config) ;;
     log_info (MsgPolicyCreated profile bucket_name))
    (fun e =>
       if is_ClientError e then
         log_error (MsgPolicyError profile bucket_name e) ;;
         raise e
       else raise e).

(** The body of [for profile in AWS_PROFILES]. *)
Definition for_profile (bucket_name profile : string) : M W unit :=
  invoke (Session profile) done (session sdk profile) ;;
  invoke (S3Client profile) done (s3_client sdk profile) ;;
  log_info (MsgUsingProfile profile) ;;
  try_except
    (invoke (HeadBucket profile bucket_name) done
            (head_bucket sdk profile bucket_name) ;;
     create_lifecycle_policy bucket_name profile)
    (fun e =>
       if is_ClientError e then
         log_error (MsgBucketInaccessible profile bucket_name e) ;;
         raise (Exception ("Bucket " ++ bucket_name ++
                           " is not accessible or doesn't exist.")%string)
       else raise e).

(** The body of [for row in reader]. *)
Definition for_row (row : list string) : M W unit :=
  match row with
  | [] => raise IndexError                       (* row[0] *)
  | field :: _ =>
      let bucket_name := strip field in
      if is_empty bucket_name then ret tt        (* continue *)
      else
        log_info (MsgProcessingBucket bucket_name) ;;
        for_each AWS_PROFILES (for_profile bucket_name)
  end.

Definition process_buckets (csv_file_path : string) : M W unit :=
  try_except
    (rows <- invoke (OpenCsv csv_file_path) ReturnedRows
                    (open_csv sdk csv_file_path) ;;
     for_each rows for_row)
    (fun e =>
       if is_FileNotFoundError e then
         log_error (MsgCsvNotFound csv_file_path) ;;
         raise e
       else
         log_error (MsgUnexpected e) ;;
         raise e).

(** [main], after the parameters of the policy are known. *)
Definition main (argv : list string) : M W unit :=
  if (Z.of_nat (List.length argv) <? 2) then
    log_error MsgUsage ;;
    sys_exit 1
  else
    let csv_file_path := List.nth 1 argv EmptyString in
    log_info MsgStarting ;;
    try_except
      (process_buckets csv_file_path ;;
       log_info MsgCompleted)
      (fun e =>
         log_error (MsgTerminated e) ;;
         sys_exit 1).

(** The module level of the script, which runs before [main] is called:
    [logging.basicConfig(..., handlers=[logging.StreamHandler(),
    logging.FileHandler(LOG_FILE_NAME)])].  Creating the file handler opens
    the log file, whose name is given to [file_handler] here, and can
    fail; nothing catches the exception then.  No record has been logged
    at that point, and the step leaves nothing in the trace. *)
Definition basic_config (LOG_FILE_NAME : string) : M W unit :=
  fun w =>
    match file_handler sdk LOG_FILE_NAME w with
    | (inr _, w') => (Ok tt, w', [])
    | (inl e, w') => (Raise e, w', [])
    end.

(** The script run as a program: the module level, then the call of
    [main] that ends the file. *)
Definition script (LOG_FILE_NAME : string) (argv : list string) : M W unit :=
  basic_config LOG_FILE_NAME ;;
  main argv.

End Driver.
End S3.

(** [S3/s3_expire.py] *)
Module S3Expire.

Definition LIFECYCLE_DAYS : Z := 60.
Definition AWS_PROFILES : list string := ["accountid"].

Definition lifecycle_config (bucket_name : string)
  : lifecycle_configuration :=
  let lifecycle_policy_name := (bucket_name ++ "_lifecycle_policy_expire")%string in
  {| Rules :=
       [ {| ID := lifecycle_policy_name;
            Status := "Enabled";
            Transitions := None;
            Expiration_Days := LIFECYCLE_DAYS;
            NoncurrentVersionTransitions := None;
            NoncurrentVersionExpiration_NoncurrentDays := LIFECYCLE_DAYS |} ]
  |}.

Definition create_lifecycle_policy {W} (sdk : aws W) :=
  S3.create_lifecycle_policy sdk lifecycle_config.
Definition process_buckets {W} (sdk : aws W) (profiles : list string) :=
  S3.process_buckets sdk profiles lifecycle_config.
Definition main {W} (sdk : aws W) (profiles : list string) :=
  S3.main sdk profiles lifecycle_config.

(** [LOG_FILE_NAME]; [now] is
    [datetime.now().strftime('%Y%m%d_%H%M%S')] when the script starts. *)
Definition LOG_FILE_NAME (now : string) : string :=
  ("s3_lifecycle_policy_expire_" ++ now ++ ".log")%string.

Definition script {W} (sdk : aws W) (profiles : list string) (now : string) :=
  S3.script sdk profiles lifecycle_config (LOG_FILE_NAME now).

End S3Expire.

(** [S3/s3_glacier_expire.py] *)
Module S3GlacierExpire.

(** The "Common Variables" at the head of the script. *)
Record settings : Type := Settings {
  LIFECYCLE_DAYS_TO_GLACIER : Z;
  LIFECYCLE_DAYS_TO_EXPIRATION : Z;
  LIFECYCLE_NONCURRENT_DAYS_TO_GLACIER : Z;
  LIFECYCLE_NONCURRENT_DAYS_TO_EXPIRATION : Z;
  GLACIER_STORAGE_CLASS : string
}.

(** Their values in the repository. *)
Definition shipped : settings :=
  {| LIFECYCLE_DAYS_TO_GLACIER := 180;
     LIFECYCLE_DAYS_TO_EXPIRATION := 365;
     LIFECYCLE_NONCURRENT_DAYS_TO_GLACIER := 180;
     LIFECYCLE_NONCURRENT_DAYS_TO_EXPIRATION := 365;
     GLACIER_STORAGE_CLASS := "GLACIER_IR" |}.

Definition AWS_PROFILES : list string := ["account_id"].

Definition lifecycle_config (s : settings) (bucket_name : string)
  : lifecycle_configuration :=
  let lifecycle_policy_name := (bucket_name ++ "_lifecycle_policy")%string in
  {| Rules :=
       [ {| ID := lifecycle_policy_name;
            Status := "Enabled";
            Transitions :=
              Some [ {| Days := LIFECYCLE_DAYS_TO_GLACIER s;
                        StorageClass := GLACIER_STORAGE_CLASS s |} ];
            Expiration_Days := LIFECYCLE_DAYS_TO_EXPIRATION s;
            NoncurrentVersionTransitions :=
              Some [ {| Days := LIFECYCLE_NONCURRENT_DAYS_TO_GLACIER s;
                        StorageClass := GLACIER_STORAGE_CLASS s |} ];
            NoncurrentVersionExpiration_NoncurrentDays :=
              LIFECYCLE_NONCURRENT_DAYS_TO_EXPIRATION s |} ]
  |}.

Definition create_lifecycle_policy {W} (sdk : aws W) (s : settings) :=
  S3.create_lifecycle_policy sdk (lifecycle_config s).
Definition process_buckets {W} (sdk : aws W) (profiles : list string)
    (s : settings) :=
  S3.process_buckets sdk profiles (lifecycle_config s).
Definition main {W} (sdk : aws W) (profiles : list string) (s : settings) :=
  S3.main sdk profiles (lifecycle_config s).

Definition LOG_FILE_NAME (now : string) : string :=
  ("s3_lifecycle_policy_" ++ now ++ ".log")%string.

Definition script {W} (sdk : aws W) (profiles : list string) (s : settings)
    (now : string) :=
  S3.script sdk profiles (lifecycle_config s) (LOG_FILE_NAME now).

End S3GlacierExpire.

(** [S3/s3_policy_set_prompts.py] *)
Module S3PolicySetPrompts.

Definition AWS_PROFILES : list string := ["account_id"].

(** The terminal: the lines still to be typed are the world of the
    prompting code.  [input(prompt)] takes the next line. *)
Definition input (prompt : string) : M (list string) string :=
  fun stdin =>
    match stdin with
    | [] => (Raise EOFError, [], [])
    | answer :: rest => (Ok answer, rest, [Input prompt answer])
    end.

(** [x = input(prompt)
     while x not in choices:
         print(complaint)
         x = input(prompt)] *)
Fixpoint input_until (prompt complaint : string) (choices : list string)
    (stdin : list string) : outcome string * list string * list event :=
  match stdin with
  | [] => (Raise EOFError, [], [])
  | answer :: rest =>
      if str_in answer choices then (Ok answer, rest, [Input prompt answer])
      else
        match input_until prompt complaint choices rest with
        | (r, rest', t) =>
            (r, rest', Input prompt answer :: Print complaint :: t)
        end
  end.

Definition day_choices : list string := ["30"; "60"; "90"; "180"; "360"].
Definition class_choices : list string := ["GLACIER"; "GLACIER_IR"].

Definition get_lifecycle_input : M (list string) (Z * string) :=
  print "Please choose a transition day for your objects:" ;;
  transition_days <-
    input_until "Enter a number of days (30, 60, 90, 180, 360): "
      "Invalid choice. Please select one of the following options: 30, 60, 90, 180, 360."
      day_choices ;;
  print "Please choose a transition storage class:" ;;
  storage_class <-
    input_until "Enter the storage class (GLACIER or GLACIER_IR): "
      "Invalid storage class. Please select one of the following: GLACIER, GLACIER_IR."
      class_choices ;;
  match int transition_days with
  | inr days => ret (days, storage_class)
  | inl e => raise e
  end.

Definition lifecycle_config (transition_days : Z) (storage_class : string)
    (bucket_name : string) : lifecycle_configuration :=
  let lifecycle_policy_name := (bucket_name ++ "_lifecycle_policy")%string in
  {| Rules :=
       [ {| ID := lifecycle_policy_name;
            Status := "Enabled";
            Transitions :=
              Some [ {| Days := transition_days;
                        StorageClass := storage_class |} ];
            Expiration_Days := transition_days + 365;
            NoncurrentVersionTransitions :=
              Some [ {| Days := transition_days;
                        StorageClass := storage_class |} ];
            NoncurrentVersionExpiration_NoncurrentDays :=
              transition_days + 365 |} ]
  |}.

Definition create_lifecycle_policy {W} (sdk : aws W)
    (bucket_name profile : string) (transition_days : Z)
    (storage_class : string) : M W unit :=
  S3.create_lifecycle_policy sdk (lifecycle_config transition_days storage_class)
    bucket_name profile.

Definition process_buckets {W} (sdk : aws W) (profiles : list string)
    (csv_file_path : string) (transition_days : Z) (storage_class : string)
  : M W unit :=
  S3.process_buckets sdk profiles
    (lifecycle_config transition_days storage_class) csv_file_path.

(** The prompts run on the terminal, whose lines are [stdin]; their
    outcome and their events become part of the run of [main]. *)
Definition at_terminal {W A} (stdin : list string) (m : M (list string) A)
  : M W A :=
  fun w => (result_of (m stdin), w, events_of (m stdin)).

Definition main {W} (sdk : aws W) (profiles : list string)
    (argv stdin : list string) : M W unit :=
  if (Z.of_nat (List.length argv) <? 2) then
    log_error MsgUsage ;;
    sys_exit 1
  else
    let csv_file_path := List.nth 1 argv EmptyString in
    log_info MsgStarting ;;
    chosen <- at_terminal stdin get_lifecycle_input ;;
    try_except
      (process_buckets sdk profiles csv_file_path (fst chosen) (snd chosen) ;;
       log_info MsgCompleted)
      (fun e =>
         log_error (MsgTerminated e) ;;
         sys_exit 1).

Definition LOG_FILE_NAME (now : string) : string :=
  ("s3_lifecycle_policy_" ++ now ++ ".log")%string.

(** The script run as a program: the module level, then the call of
    [main] that ends the file. *)
Definition script {W} (sdk : aws W) (profiles : list string) (now : string)
    (argv stdin : list string) : M W unit :=
  S3.basic_config sdk (LOG_FILE_NAME now) ;;
  main sdk profiles argv stdin.

End S3PolicySetPrompts.

(** ** The CloudWatch scripts *)

(** [set_retention_for_log_groups], [setup_logging] and
    [process_log_groups] are the same text in the two CloudWatch scripts up
    to the body of the loop over the log groups of a page, which is the
    variable [for_log_group] here, and the module constants [regions] and
    [aws_profiles]. *)
Module CloudWatch.
Section Driver.

Variable W : Type.
Variable sdk : aws W.
Variable aws_profiles : list string.
Variable regions : list string.
Variable for_log_group : string -> string -> log_group -> M W unit.

Definition set_retention_for_log_groups (region profile : string)
  : M W unit :=
  try_except
    (invoke (Session profile) done (session sdk profile) ;;
     invoke (LogsClient profile region) done
            (logs_client sdk profile region) ;;
     for_each_page profile region (describe_log_groups sdk profile region)
       (fun logGroups => for_each logGroups (for_log_group region profile)))
    (fun e =>
       log_error (MsgRegionError region profile e) ;;
       log_error MsgTraceback ;;
       raise e).

(** The handlers are attached to the root logger; creating the file
    handler opens the log file and can fail. *)
Definition setup_logging (profile_name : string) : M W unit :=
  invoke (SetupLogging profile_name) done (file_handler sdk profile_name).

(** The body of [for region in regions]. *)
Definition for_region (profile region : string) : M W unit :=
  log_info (MsgProcessingRegion region) ;;
  set_retention_for_log_groups region profile.

(** The [except] clause of [process_log_groups].  It uses the local
    variable [logger], which is assigned by the first statement of the
    [try] block; [logger] tells whether the variable is bound. *)
Definition on_profile_error (logger : bool) (profile : string) (e : exn)
  : M W bool :=
  if logger then
    log_error (MsgProfileError profile e) ;;
    log_error MsgTraceback ;;
    ret logger
  else raise (UnboundLocalError "logger").

(** The body of [for profile in aws_profiles]; it returns whether [logger]
    is bound afterwards.  An exception of [setup_logging] reaches the
    handler with [logger] as it was, any later one with [logger] bound. *)
Definition for_profile (logger : bool) (profile : string) : M W bool :=
  try_except
    (setup_logging profile ;;
     try_except
       (log_info (MsgStarted profile) ;;
        for_each regions (for_region profile) ;;
        log_info (MsgProfileComplete profile) ;;
        ret true)
       (on_profile_error true profile))
    (on_profile_error logger profile).

Fixpoint for_profiles (logger : bool) (profiles : list string) : M W unit :=
  match profiles with
  | [] => ret tt
  | profile :: rest =>
      logger' <- for_profile logger profile ;;
      for_profiles logger' rest
  end.

Definition process_log_groups : M W unit := for_profiles false aws_profiles.

(** The module level of the script: the call of [process_log_groups] and
    the final [print]. *)
Definition script : M W unit :=
  process_log_groups ;;
  print "Retention policy update complete. Check the log file for details.".

End Driver.
End CloudWatch.

(** [cloudwatch/cloudwatch_log_grp_rete_all_1m_non_prod.py] *)
Module CloudWatchAll.

Definition regions : list string :=
  ["us-east-1"; "us-west-1"; "us-west-2"; "us-east-2"].
Definition RETENTION_DAYS : Z := 30.
Definition aws_profiles : list string := ["accountid"].

Definition for_log_group {W} (sdk : aws W) (region profile : string)
    (log_group : log_group) : M W unit :=
  let log_group_name := logGroupName log_group in
  log_info (MsgSettingRetention profile log_group_name RETENTION_DAYS) ;;
  invoke (PutRetentionPolicy profile region log_group_name RETENTION_DAYS)
         done
         (put_retention_policy sdk profile region log_group_name
                               RETENTION_DAYS).

Definition set_retention_for_log_groups {W} (sdk : aws W) :=
  CloudWatch.set_retention_for_log_groups sdk (for_log_group sdk).
Definition process_log_groups {W} (sdk : aws W)
    (profiles regions : list string) :=
  CloudWatch.process_log_groups sdk profiles regions (for_log_group sdk).
Definition script {W} (sdk : aws W) (profiles regions : list string) :=
  CloudWatch.script sdk profiles regions (for_log_group sdk).

End CloudWatchAll.

(** [cloudwatch/cw_log_grp_ret_target_1m_2m_3m.py] *)
Module CloudWatchTarget.

Definition regions : list string :=
  ["us-east-1"; "us-west-1"; "us-west-2"; "us-east-2"].
Definition aws_profiles : list string := ["accountid"].

(** The two retention constants at the head of the script. *)
Record settings : Type := Settings {
  RETENTION_DAYS : Z;
  TARGET_RETENTION_DAYS : Z
}.

(** Their values in the repository. *)
Definition shipped : settings :=
  {| RETENTION_DAYS := 30; TARGET_RETENTION_DAYS := 14 |}.

(** ['retentionInDays' in log_group and
     log_group['retentionInDays'] == TARGET_RETENTION_DAYS] *)
Definition retention_is_target (s : settings) (log_group : log_group)
  : bool :=
  match retentionInDays log_group with
  | Some days => days =? TARGET_RETENTION_DAYS s
  | None => false
  end.

Definition for_log_group {W} (sdk : aws W) (s : settings)
    (region profile : string) (log_group : log_group) : M W unit :=
  let log_group_name := logGroupName log_group in
  if retention_is_target s log_group then
    log_info (MsgSettingRetentionFrom profile log_group_name
                (TARGET_RETENTION_DAYS s) (RETENTION_DAYS s)) ;;
    invoke (PutRetentionPolicy profile region log_group_name
                               (RETENTION_DAYS s))
           done
           (put_retention_policy sdk profile region log_group_name
                                 (RETENTION_DAYS s))
  else
    log_info (MsgSkipping profile log_group_name
                (retentionInDays log_group)).

Definition set_retention_for_log_groups {W} (sdk : aws W) (s : settings) :=
  CloudWatch.set_retention_for_log_groups sdk (for_log_group sdk s).
Definition process_log_groups {W} (sdk : aws W)
    (profiles regions : list string) (s : settings) :=
  CloudWatch.process_log_groups sdk profiles regions (for_log_group sdk s).
Definition script {W} (sdk : aws W) (profiles regions : list string)
    (s : settings) :=
  CloudWatch.script sdk profiles regions (for_log_group sdk s).

End CloudWatchTarget.

(** ** Reading traces *)

(** The calls of a trace, in order, with their replies. *)
Definition api_calls (t : list event) : list (call * reply) :=
  flat_map (fun e => match e with Api c r => [(c, r)] | _ => [] end) t.

(** A computation all of whose events satisfy [P], in every world. *)
Definition emits {W A} (P : event -> Prop) (m : M W A) : Prop :=
  forall w, Forall P (events_of (m w)).

(** A computation whose trace satisfies [Q], in every world. *)
Definition traces {W A} (Q : list event -> Prop) (m : M W A) : Prop :=
  forall w, Q (events_of (m w)).

(** A computation that never ends in [sys.exit]. *)
Definition never_exits {W A} (m : M W A) : Prop :=
  forall w code, result_of (m w) <> Exit code.

(** *** Existence checks before writes

    A reader of the calls of an S3 run.  It remembers whether the call just
    seen is a [head_bucket] that returned, and for which profile and bucket;
    it refuses a [put_bucket_lifecycle_configuration] that does not follow
    such a check of the same profile and bucket, and any call after a
    [head_bucket] that raised. *)
Inductive guard : Type :=
| Idle
| Checked (profile bucket : string)
| Stopped (profile bucket : string) (e : exn).

Definition not_stopped (g : guard) : Prop :=
  match g with Stopped _ _ _ => False | _ => True end.

Definition guard_step (g : guard) (c : call * reply) : option guard :=
  match g with
  | Stopped _ _ _ => None
  | _ =>
      match c with
      | (HeadBucket p b, Returned) => Some (Checked p b)
      | (HeadBucket p b, Raised e) => Some (Stopped p b e)
      | (HeadBucket _ _, _) => None
      | (PutBucketLifecycleConfiguration p b _, _) =>
          match g with
          | Checked p' b' =>
              if (String.eqb p p' && String.eqb b b')%bool then Some Idle
              else None
          | _ => None
          end
      | _ => Some Idle
      end
  end.

Fixpoint guard_run (g : guard) (cs : list (call * reply)) : option guard :=
  match cs with
  | [] => Some g
  | c :: rest =>
      match guard_step g c with
      | Some g' => guard_run g' rest
      | None => None
      end
  end.

(** What [process_buckets] raises after [head_bucket] raised [e]. *)
Definition inaccessible (bucket : string) (e : exn) : exn :=
  if is_ClientError e then
    Exception ("Bucket " ++ bucket ++ " is not accessible or doesn't exist.")%string
  else e.

(** The outcome that goes with the state the reader ends in. *)
Definition agrees {A} (g : guard) (r : outcome A) : Prop :=
  match g with
  | Stopped _ bucket e => r = Raise (inaccessible bucket e)
  | _ => True
  end.

(** A computation whose calls the reader accepts, from every state in
    which no check has failed, and whose outcome agrees with the state the
    reader ends in. *)
Definition guarded {W A} (m : M W A) : Prop :=
  forall w g, not_stopped g ->
    exists g', guard_run g (api_calls (events_of (m w))) = Some g' /\
               agrees g' (result_of (m w)).

(** *** The order of scopes

    [follows eqb scopes tags]: the sequence [tags] is made of blocks of
    equal tags, and the tags of the blocks are, in this order, among
    [scopes]: a scope may be left out, and none is come back to once
    left. *)
Section Follows.

Variable T : Type.
Variable eqb : T -> T -> bool.

Fixpoint skip_to (tag : T) (scopes : list T) : list T :=
  match scopes with
  | [] => []
  | s :: rest => if eqb tag s then scopes else skip_to tag rest
  end.

Fixpoint follows (scopes : list T) (tags : list T) : bool :=
  match tags with
  | [] => true
  | tag :: rest =>
      match skip_to tag scopes with
      | [] => false
      | remaining => follows remaining rest
      end
  end.

(** A computation whose tagged events follow [scopes], also when it is
    followed by events that follow [tail]. *)
Definition ordered {W A} (tag_of : event -> list T) (scopes : list T)
    (m : M W A) : Prop :=
  forall w tail later,
    follows tail later = true ->
    follows (scopes ++ tail)
            (flat_map tag_of (events_of (m w)) ++ later) = true.

End Follows.

Definition scope : Type := (string * string)%type.

Definition scope_eqb (a b : scope) : bool :=
  (String.eqb (fst a) (fst b) && String.eqb (snd a) (snd b))%bool.

(** [(x, y)] for [x] in [xs], [y] in [ys], [x] varying slowest. *)
Definition cross (xs ys : list string) : list scope :=
  flat_map (fun x => map (pair x) ys) xs.

(** The (profile, region) a CloudWatch call is made in. *)
Definition region_scope (e : event) : list scope :=
  match e with
  | Api (LogsClient p r) _ => [(p, r)]
  | Api (DescribeLogGroups p r) _ => [(p, r)]
  | Api (PutRetentionPolicy p r _ _) _ => [(p, r)]
  | _ => []
  end.

(** The (bucket, profile) an S3 call is about, and its profile alone. *)
Definition bucket_scope (e : event) : list scope :=
  match e with
  | Api (HeadBucket p b) _ => [(b, p)]
  | Api (PutBucketLifecycleConfiguration p b _) _ => [(b, p)]
  | _ => []
  end.

Definition profile_scope (e : event) : list string :=
  match e with
  | Api (HeadBucket p _) _ => [p]
  | Api (PutBucketLifecycleConfiguration p _ _) _ => [p]
  | _ => []
  end.

(** The bucket names that the rows of a CSV file stand for: the first
    field, stripped, of each row that has one, unless that is empty. *)
Definition targets (rows : list (list string)) : list string :=
  flat_map (fun row =>
              match row with
              | [] => []
              | field :: _ =>
                  if is_empty (strip field) then [] else [strip field]
              end) rows.

(** An event without a tag, and an event without a tag or with the tag
    [s]. *)
Definition untagged {T} (tag_of : event -> list T) (e : event) : Prop :=
  tag_of e = [].

Definition tagged {T} (tag_of : event -> list T) (s : T) (e : event) : Prop :=
  tag_of e = [] \/ tag_of e = [s].

(** *** What is written

    An event that, when it is a [put_bucket_lifecycle_configuration],
    carries the dictionary [lifecycle_config] builds for its bucket. *)
Definition submits (lifecycle_config : string -> lifecycle_configuration)
    (e : event) : Prop :=
  match e with
  | Api (PutBucketLifecycleConfiguration _ bucket config) _ =>
      config = lifecycle_config bucket
  | _ => True
  end.

(** An event that, when it is a [put_bucket_lifecycle_configuration],
    carries a dictionary of [s3_policy_set_prompts.py] for one of the
    transition days and storage classes the prompts offer. *)
Definition offered (e : event) : Prop :=
  match e with
  | Api (PutBucketLifecycleConfiguration _ bucket config) _ =>
      exists days storage_class,
        In days [30; 60; 90; 180; 360] /\
        In storage_class ["GLACIER"; "GLACIER_IR"] /\
        config = S3PolicySetPrompts.lifecycle_config days storage_class bucket
  | _ => True
  end.

(** *** What a retention run changes

    [explained s seen e]: if [e] is a call in a run of the conditional
    script, it is read-only or local, or it is a [put_retention_policy]
    with the new retention of [s], for a log group that a page among the
    events [seen], listed for the same profile and region, shows with the
    trigger retention of [s]. *)
Definition explained (s : CloudWatchTarget.settings) (seen : list event)
    (e : event) : Prop :=
  match e with
  | Api (PutRetentionPolicy profile region name days) _ =>
      days = CloudWatchTarget.RETENTION_DAYS s /\
      exists page log_group,
        In (Api (DescribeLogGroups profile region) (ReturnedPage page)) seen /\
        In log_group page /\
        logGroupName log_group = name /\
        retentionInDays log_group =
          Some (CloudWatchTarget.TARGET_RETENTION_DAYS s)
  | Api (PutBucketLifecycleConfiguration _ _ _) _ => False
  | Api (HeadBucket _ _) _ => False
  | Api (S3Client _) _ => False
  | Api (OpenCsv _) _ => False
  | _ => True
  end.

(** The same for the events caused by one page. *)
Definition explained_by_page (s : CloudWatchTarget.settings)
    (profile region : string) (page : list log_group) (e : event) : Prop :=
  explained s [Api (DescribeLogGroups profile region) (ReturnedPage page)] e.

(** A trace each of whose events is explained by the events before it,
    [seen] being those before the trace. *)
Fixpoint accounted_from (s : CloudWatchTarget.settings)
    (seen t : list event) : Prop :=
  match t with
  | [] => True
  | e :: rest => explained s seen e /\ accounted_from s (seen ++ [e]) rest
  end.

Definition accounted (s : CloudWatchTarget.settings) (t : list event) : Prop :=
  forall seen, accounted_from s seen t.

(** ** Sample worlds *)

Module Examples.

(** Worlds without a state of their own. *)
Definition succeeds {A} (a : A) : operation unit A := fun w => (inr a, w).
Definition fails {A} (e : exn) : operation unit A := fun w => (inl e, w).

(** A listing given page by page; an [inl] is a request that fails. *)
Fixpoint listing (pages : list (exn + list log_group)) : page_stream unit :=
  match pages with
  | [] => Fetch (fun _ => NoMorePages)
  | inl e :: _ => Fetch (fun w => FetchError w e)
  | inr logGroups :: rest => Fetch (fun w => Page w logGroups (listing rest))
  end.

(** An account in which the CSV file holds [rows], the buckets [absent] do
    not exist, and the log groups of a profile and region are [pages]. *)
Definition account (rows : list (list string)) (absent : list string)
    (pages : string -> string -> list (exn + list log_group)) : aws unit :=
  {| open_csv := fun _ => succeeds rows;
     session := fun _ => succeeds tt;
     s3_client := fun _ => succeeds tt;
     logs_client := fun _ _ => succeeds tt;
     head_bucket := fun _ b =>
       if str_in b absent then fails (ClientError "404") else succeeds tt;
     put_bucket_lifecycle_configuration := fun _ _ _ => succeeds tt;
     describe_log_groups := fun p r => listing (pages p r);
     put_retention_policy := fun _ _ _ _ => succeeds tt;
     file_handler := fun _ => succeeds tt |}.

Definition no_log_groups (_ _ : string) : list (exn + list log_group) := [].

(** The file of three lines [bucket-a], an empty line, [ bucket-b ]:
    [csv.reader] gives the empty list for the empty line. *)
Definition rows_with_empty_line : list (list string) :=
  [["bucket-a"]; []; [" bucket-b "]].

(** The same file with a line of blanks in place of the empty line. *)
Definition rows_with_blank_line : list (list string) :=
  [["bucket-a"]; ["   "]; [" bucket-b "]].

Definition g1 : log_group :=
  {| logGroupName := "g1"; retentionInDays := Some 14 |}.
Definition g2 : log_group :=
  {| logGroupName := "g2"; retentionInDays := Some 30 |}.
Definition g3 : log_group :=
  {| logGroupName := "g3"; retentionInDays := None |}.

(** Every region lists [g1], [g2] on a first page and [g3] on a second. *)
Definition healthy_regions (_ _ : string) : list (exn + list log_group) :=
  [inr [g1; g2]; inr [g3]].

(** As before, but in [us-east-1] the request for the second page fails. *)
Definition broken_east (_ region : string) : list (exn + list log_group) :=
  if String.eqb region "us-east-1"
  then [inr [g1; g2]; inl (ClientError "ThrottlingException")]
  else [inr [g1; g2]; inr [g3]].

(** Day counts in the wrong order for [s3_glacier_expire.py]. *)
Definition late_transition : S3GlacierExpire.settings :=
  {| S3GlacierExpire.LIFECYCLE_DAYS_TO_GLACIER := 365;
     S3GlacierExpire.LIFECYCLE_DAYS_TO_EXPIRATION := 180;
     S3GlacierExpire.LIFECYCLE_NONCURRENT_DAYS_TO_GLACIER := 365;
     S3GlacierExpire.LIFECYCLE_NONCURRENT_DAYS_TO_EXPIRATION := 180;
     S3GlacierExpire.GLACIER_STORAGE_CLASS := "GLACIER_IR" |}.

End Examples.

(** ** Further readings of traces *)

Definition is_raised (r : reply) : bool :=
  match r with Raised _ => true | _ => false end.

(** Calls none of which raised. *)
Definition unfailed (cs : list (call * reply)) : Prop :=
  Forall (fun c => is_raised (snd c) = false) cs.

(** A computation that makes no call after one that raised, and that ends
    well only when no call raised. *)
Definition fail_fast {W A} (m : M W A) : Prop :=
  forall w,
    unfailed (removelast (api_calls (events_of (m w)))) /\
    (forall a, result_of (m w) = Ok a ->
               unfailed (api_calls (events_of (m w)))).

(** A computation whose only exceptions are those of its calls: it ends
    well when no call raised, and otherwise with the exception of its last
    call, the only one that raised. *)
Definition raises_its_last_call {W A} (m : M W A) : Prop :=
  forall w,
    match result_of (m w) with
    | Ok _ => unfailed (api_calls (events_of (m w)))
    | Raise e =>
        exists before c,
          api_calls (events_of (m w)) = before ++ [(c, Raised e)] /\
          unfailed before
    | Exit _ => False
    end.

(** The four calls that the S3 scripts make for a bucket under a profile
    when all of them return. *)
Definition bucket_calls (lifecycle_config : string -> lifecycle_configuration)
    (s : scope) : list (call * reply) :=
  let bucket := fst s in
  let profile := snd s in
  [(Session profile, Returned);
   (S3Client profile, Returned);
   (HeadBucket profile bucket, Returned);
   (PutBucketLifecycleConfiguration profile bucket (lifecycle_config bucket),
    Returned)].

(** The record that [process_buckets] logs before it raises [e]. *)
Definition last_record (path : string) (e : exn) : log_msg :=
  if is_FileNotFoundError e then MsgCsvNotFound path else MsgUnexpected e.

(** An event that, when it is a call about a bucket, names it by a string
    that is not empty and that [strip] leaves as it is. *)
Definition names_stripped_bucket (e : event) : Prop :=
  match e with
  | Api (HeadBucket _ bucket) _ =>
      bucket <> EmptyString /\ strip bucket = bucket
  | Api (PutBucketLifecycleConfiguration _ bucket _) _ =>
      bucket <> EmptyString /\ strip bucket = bucket
  | _ => True
  end.

(** [forall c in s: c.isspace()] *)
Fixpoint all_space (s : string) : bool :=
  match s with
  | EmptyString => true
  | String c rest => is_space c && all_space rest
  end.

(** The log groups that the pages of a trace list, in order. *)
Definition listed (t : list event) : list log_group :=
  flat_map (fun e =>
              match e with
              | Api (DescribeLogGroups _ _) (ReturnedPage page) => page
              | _ => []
              end) t.

(** The retention writes of a trace, in order: profile, region, log group
    and days. *)
Definition retention_puts (t : list event)
  : list (string * string * string * Z) :=
  flat_map (fun e =>
              match e with
              | Api (PutRetentionPolicy profile region name days) _ =>
                  [(profile, region, name, days)]
              | _ => []
              end) t.

(** The profiles whose processing a trace shows as started, in order. *)
Definition started (t : list event) : list string :=
  flat_map (fun e =>
              match e with
              | LogInfo (MsgStarted profile) => [profile]
              | _ => []
              end) t.

(** *** The handlers of the root logger

    [setup_logging] takes the root logger ([logging.getLogger()]) and adds
    two handlers to it: one for the log file of the profile, one for the
    terminal.  Nothing removes a handler.  A record given to the logger is
    given to every handler it has at that moment. *)
Inductive handler : Type :=
| FileHandler (profile_name : string)   (* the log file of this profile *)
| StreamHandler.

(** The handlers that an event adds to the root logger. *)
Definition added_handlers (e : event) : list handler :=
  match e with
  | Api (SetupLogging profile_name) Returned =>
      [FileHandler profile_name; StreamHandler]
  | _ => []
  end.

(** Which handler receives which record in the course of a trace, the
    root logger having the handlers [handlers] at its start. *)
Fixpoint deliveries (handlers : list handler) (t : list event)
  : list (handler * log_msg) :=
  match t with
  | [] => []
  | e :: rest =>
      match e with
      | LogInfo m | LogError m =>
          map (fun h => (h, m)) handlers ++ deliveries handlers rest
      | _ => deliveries (handlers ++ added_handlers e) rest
      end
  end.

(** ** More sample worlds *)

Module Scenarios.

(** An account that refuses every lifecycle configuration. *)
Definition read_only (rows : list (list string)) : aws unit :=
  let base := Examples.account rows [] Examples.no_log_groups in
  {| open_csv := open_csv base;
     session := session base;
     s3_client := s3_client base;
     logs_client := logs_client base;
     head_bucket := head_bucket base;
     put_bucket_lifecycle_configuration := fun _ _ _ =>
       Examples.fails (ClientError "AccessDenied");
     describe_log_groups := describe_log_groups base;
     put_retention_policy := put_retention_policy base;
     file_handler := file_handler base |}.

(** A machine on which the CSV file does not exist. *)
Definition no_file : aws unit :=
  let base := Examples.account [] [] Examples.no_log_groups in
  {| open_csv := fun path => Examples.fails (FileNotFoundError path);
     session := session base;
     s3_client := s3_client base;
     logs_client := logs_client base;
     head_bucket := head_bucket base;
     put_bucket_lifecycle_configuration :=
       put_bucket_lifecycle_configuration base;
     describe_log_groups := describe_log_groups base;
     put_retention_policy := put_retention_policy base;
     file_handler := file_handler base |}.

(** A directory in which the log files of the profiles [locked] cannot be
    created. *)
Definition locked_logs (locked : list string)
    (pages : string -> string -> list (exn + list log_group)) : aws unit :=
  let base := Examples.account [] [] pages in
  {| open_csv := open_csv base;
     session := session base;
     s3_client := s3_client base;
     logs_client := logs_client base;
     head_bucket := head_bucket base;
     put_bucket_lifecycle_configuration :=
       put_bucket_lifecycle_configuration base;
     describe_log_groups := describe_log_groups base;
     put_retention_policy := put_retention_policy base;
     file_handler := fun profile =>
       if str_in profile locked
       then Examples.fails (OSError "Permission denied")
       else Examples.succeeds tt |}.

(** An account in which the retention of the log group [g2] cannot be
    changed. *)
Definition frozen_g2 : aws unit :=
  let base := Examples.account [] [] Examples.healthy_regions in
  {| open_csv := open_csv base;
     session := session base;
     s3_client := s3_client base;
     logs_client := logs_client base;
     head_bucket := head_bucket base;
     put_bucket_lifecycle_configuration :=
       put_bucket_lifecycle_configuration base;
     describe_log_groups := describe_log_groups base;
     put_retention_policy := fun _ _ name _ =>
       if String.eqb name "g2"
       then Examples.fails (ClientError "AccessDeniedException")
       else Examples.succeeds tt;
     file_handler := file_handler base |}.

End Scenarios.

(** * Properties *)

(** ** Events and outcomes of the combinators *)

Section Combinators.

Variable W : Type.

Ltac run m w := destruct (m w) as [[[?|?|?] ?] ?] eqn:?.

Lemma emits_ret A (P : event -> Prop) (a : A) : emits P (@ret W A a).
Proof. intros w. constructor. Qed.

Lemma emits_raise A (P : event -> Prop) e : emits P (@raise W A e).
Proof. intros w. constructor. Qed.

Lemma emits_sys_exit A (P : event -> Prop) c : emits P (@sys_exit W A c).
Proof. intros w. constructor. Qed.

Lemma emits_emit (P : event -> Prop) e : P e -> emits P (@emit W e).
Proof. intros H w. repeat constructor. exact H. Qed.

Lemma emits_bind A B (P : event -> Prop) (m : M W A) (k : A -> M W B) :
  emits P m -> (forall a, emits P (k a)) -> emits P (bind m k).
Proof.
  intros Hm Hk w. unfold bind. specialize (Hm w).
  run m w; cbn in Hm; try exact Hm.
  specialize (Hk a w0). destruct (k a w0) as [[r w2] t2].
  cbn in *. apply Forall_app. split; assumption.
Qed.

Lemma emits_bind_ok A B (P : event -> Prop) (m : M W A) (k : A -> M W B) :
  emits P m ->
  (forall a w, result_of (m w) = Ok a -> emits P (k a)) ->
  emits P (bind m k).
Proof.
  intros Hm Hk w. unfold bind. specialize (Hm w).
  pose proof (fun a => Hk a w) as Hk'. clear Hk.
  run m w; cbn in Hm; try exact Hm.
  pose proof (Hk' a eq_refl w0) as Hk. destruct (k a w0) as [[r w2] t2].
  cbn in *. apply Forall_app. split; assumption.
Qed.

Lemma emits_try_except A (P : event -> Prop) (m : M W A) h :
  emits P m -> (forall e, emits P (h e)) -> emits P (try_except m h).
Proof.
  intros Hm Hh w. unfold try_except. specialize (Hm w).
  run m w; cbn in Hm; try exact Hm.
  specialize (Hh e w0). destruct (h e w0) as [[r w2] t2].
  cbn in *. apply Forall_app. split; assumption.
Qed.

Lemma emits_for_each A (P : event -> Prop) (xs : list A) body :
  (forall x, In x xs -> emits P (body x)) -> emits P (@for_each W A xs body).
Proof.
  induction xs as [|x xs IH]; intros H; cbn.
  - apply emits_ret.
  - apply emits_bind.
    + apply H. now left.
    + intros _. apply IH. intros y Hy. apply H. now right.
Qed.

Lemma emits_invoke A (P : event -> Prop) c shown (op : operation W A) :
  (forall r, P (Api c r)) -> emits P (invoke c shown op).
Proof.
  intros H w. unfold invoke.
  destruct (op w) as [[e|a] w']; cbn; repeat constructor; apply H.
Qed.

Lemma for_each_page_eq profile region (next : W -> page_result W) body w :
  for_each_page profile region (Fetch next) body w =
  match next w with
  | NoMorePages => (Ok tt, w, [])
  | FetchError w' e =>
      (Raise e, w', [Api (DescribeLogGroups profile region) (Raised e)])
  | Page w' logGroups rest =>
      (emit (Api (DescribeLogGroups profile region) (ReturnedPage logGroups)) ;;
       body logGroups ;;
       for_each_page profile region rest body) w'
  end.
Proof. reflexivity. Qed.

Lemma emits_for_each_page (P : event -> Prop) profile region
    (pages : page_stream W) body :
  (forall r, P (Api (DescribeLogGroups profile region) r)) ->
  (forall logGroups, emits P (body logGroups)) ->
  emits P (for_each_page profile region pages body).
Proof.
  intros Hcall Hbody. revert pages.
  fix IH 1. intros [next] w. rewrite for_each_page_eq.
  destruct (next w) as [|w' e|w' logGroups rest].
  - constructor.
  - cbn. repeat constructor. apply Hcall.
  - revert w'. apply emits_bind; [apply emits_emit; apply Hcall|]. intros _.
    apply emits_bind; [apply Hbody|]. intros _. apply IH.
Qed.

Lemma emits_weaken A (P Q : event -> Prop) (m : M W A) :
  (forall e, P e -> Q e) -> emits P m -> emits Q m.
Proof. intros H Hm w. eapply Forall_impl; [exact H | apply Hm]. Qed.

Lemma never_exits_ret A (a : A) : never_exits (@ret W A a).
Proof. intros w c. discriminate. Qed.

Lemma never_exits_raise A e : never_exits (@raise W A e).
Proof. intros w c. discriminate. Qed.

Lemma never_exits_emit e : never_exits (@emit W e).
Proof. intros w c. discriminate. Qed.

Lemma never_exits_bind A B (m : M W A) (k : A -> M W B) :
  never_exits m -> (forall a, never_exits (k a)) -> never_exits (bind m k).
Proof.
  intros Hm Hk w c. unfold bind. specialize (Hm w).
  run m w; cbn in *; try discriminate.
  - specialize (Hk a w0 c). destruct (k a w0) as [[r w2] t2]. exact Hk.
  - exfalso. exact (Hm code eq_refl).
Qed.

Lemma never_exits_try_except A (m : M W A) h :
  never_exits m -> (forall e, never_exits (h e)) ->
  never_exits (try_except m h).
Proof.
  intros Hm Hh w c. unfold try_except. specialize (Hm w).
  run m w; cbn in *; try discriminate.
  - specialize (Hh e w0 c). destruct (h e w0) as [[r w2] t2]. exact Hh.
  - exfalso. exact (Hm code eq_refl).
Qed.

Lemma never_exits_for_each A (xs : list A) body :
  (forall x, never_exits (body x)) -> never_exits (@for_each W A xs body).
Proof.
  intros H. induction xs as [|x xs IH]; cbn.
  - apply never_exits_ret.
  - apply never_exits_bind; [apply H | intros _; exact IH].
Qed.

Lemma never_exits_invoke A c shown (op : operation W A) :
  never_exits (invoke c shown op).
Proof.
  intros w code. unfold invoke.
  destruct (op w) as [[e|a] w']; discriminate.
Qed.

Lemma never_exits_for_each_page profile region (pages : page_stream W) body :
  (forall logGroups, never_exits (body logGroups)) ->
  never_exits (for_each_page profile region pages body).
Proof.
  intros Hbody. revert pages.
  fix IH 1. intros [next] w. rewrite for_each_page_eq.
  destruct (next w) as [|w' e|w' logGroups rest].
  - discriminate.
  - discriminate.
  - revert w'. apply never_exits_bind; [apply never_exits_emit|]. intros _.
    apply never_exits_bind; [apply Hbody|]. intros _. apply IH.
Qed.

End Combinators.

(** ** Loops that stop at the first exception *)

Section Loops.

Variable W : Type.

Lemma for_each_app A (xs ys : list A) (body : A -> M W unit) w w1 t1 :
  for_each xs body w = (Ok tt, w1, t1) ->
  for_each (xs ++ ys) body w =
  (result_of (for_each ys body w1), world_of (for_each ys body w1),
   t1 ++ events_of (for_each ys body w1)).
Proof.
  revert w t1. induction xs as [|x xs IH]; intros w t1 H.
  - cbn in H. injection H as <- <-. cbn.
    now destruct (for_each ys body w) as [[r w2] t2].
  - cbn [for_each app] in *. unfold bind in *.
    destruct (body x w) as [[[[]|e|c] w0] t0]; try discriminate.
    destruct (for_each xs body w0) as [[[[]|e|c] w3] t3] eqn:E;
      try discriminate.
    injection H as <- <-.
    erewrite IH by exact E. cbn. now rewrite app_assoc.
Qed.

Lemma for_each_stops A (xs ys : list A) (body : A -> M W unit) x w w1 t1
    e w2 t2 :
  for_each xs body w = (Ok tt, w1, t1) ->
  body x w1 = (Raise e, w2, t2) ->
  for_each (xs ++ x :: ys) body w = (Raise e, w2, t1 ++ t2).
Proof.
  intros H1 H2. erewrite for_each_app by exact H1.
  cbn [for_each]. unfold bind. rewrite H2. reflexivity.
Qed.

End Loops.

(** ** The conditional comparator of [cw_log_grp_ret_target_1m_2m_3m.py] *)

Lemma retention_is_target_iff s log_group :
  CloudWatchTarget.retention_is_target s log_group = true <->
  retentionInDays log_group = Some (CloudWatchTarget.TARGET_RETENTION_DAYS s).
Proof.
  unfold CloudWatchTarget.retention_is_target.
  destruct (retentionInDays log_group) as [days|].
  - rewrite Z.eqb_eq. split; [now intros -> | now intros [= ->]].
  - split; discriminate.
Qed.



(** ** What the S3 scripts submit *)

Ltac emits_step :=
  lazymatch goal with
  | |- emits _ (ret _) => apply emits_ret
  | |- emits _ (raise _) => apply emits_raise
  | |- emits _ (sys_exit _) => apply emits_sys_exit
  | |- emits _ (bind _ _) => apply emits_bind; [|intros ?]
  | |- emits _ (try_except _ _) => apply emits_try_except; [|intros ?]
  | |- emits _ (for_each _ _) => apply emits_for_each; intros ? ?
  | |- emits _ (invoke _ _ _) => apply emits_invoke; intros ?
  | |- emits _ (log_info _) => apply emits_emit
  | |- emits _ (log_error _) => apply emits_emit
  | |- emits _ (print _) => apply emits_emit
  | |- emits _ (emit _) => apply emits_emit
  | |- emits _ (if ?b then _ else _) => destruct b
  | |- emits _ (match ?x with _ => _ end) => destruct x
  end.

Ltac never_exits_step :=
  lazymatch goal with
  | |- never_exits (ret _) => apply never_exits_ret
  | |- never_exits (raise _) => apply never_exits_raise
  | |- never_exits (bind _ _) => apply never_exits_bind; [|intros ?]
  | |- never_exits (try_except _ _) =>
      apply never_exits_try_except; [|intros ?]
  | |- never_exits (for_each _ _) => apply never_exits_for_each; intros ?
  | |- never_exits (invoke _ _ _) => apply never_exits_invoke
  | |- never_exits (log_info _) => apply never_exits_emit
  | |- never_exits (log_error _) => apply never_exits_emit
  | |- never_exits (print _) => apply never_exits_emit
  | |- never_exits (emit _) => apply never_exits_emit
  | |- never_exits (if ?b then _ else _) => destruct b
  | |- never_exits (match ?x with _ => _ end) => destruct x
  end.

Section S3Facts.

Variable W : Type.
Variable sdk : aws W.
Variable profiles : list string.
Variable lifecycle_config : string -> lifecycle_configuration.

Lemma create_lifecycle_policy_submits bucket profile :
  emits (submits lifecycle_config)
    (S3.create_lifecycle_policy sdk lifecycle_config bucket profile).
Proof.
  unfold S3.create_lifecycle_policy; repeat emits_step; exact I || reflexivity.
Qed.

Lemma process_buckets_submits path :
  emits (submits lifecycle_config)
    (S3.process_buckets sdk profiles lifecycle_config path).
Proof.
  unfold S3.process_buckets, S3.for_row, S3.for_profile.
  repeat emits_step;
    try apply create_lifecycle_policy_submits; exact I.
Qed.

Lemma main_submits argv :
  emits (submits lifecycle_config)
    (S3.main sdk profiles lifecycle_config argv).
Proof.
  unfold S3.main.
  repeat emits_step; try apply process_buckets_submits; exact I.
Qed.

Lemma process_buckets_never_exits path :
  never_exits (S3.process_buckets sdk profiles lifecycle_config path).
Proof.
  unfold S3.process_buckets, S3.for_row, S3.for_profile,
    S3.create_lifecycle_policy.
  repeat never_exits_step.
Qed.

(** The first thing [create_lifecycle_policy] does is to submit the
    dictionary; it ends well when the service accepts it and with the
    error of the service otherwise. *)
Lemma create_lifecycle_policy_run bucket profile w :
  let run := S3.create_lifecycle_policy sdk lifecycle_config bucket profile w in
  let put := PutBucketLifecycleConfiguration profile bucket
               (lifecycle_config bucket) in
  (result_of run = Ok tt /\
   events_of run =
     [Api put Returned; LogInfo (MsgPolicyCreated profile bucket)]) \/
  (exists e, result_of run = Raise e /\
   exists logged, events_of run = Api put (Raised e) :: logged).
Proof.
  cbv zeta. unfold S3.create_lifecycle_policy, try_except, bind, invoke,
    log_info, log_error, emit, raise.
  destruct (put_bucket_lifecycle_configuration _ _ _ _ _) as [[e|[]] w'].
  - right. exists e. destruct (is_ClientError e); cbn; eauto.
  - left. split; reflexivity.
Qed.

End S3Facts.

(** ** Rows of the CSV file *)

(** C2.  The claim does not hold of the code: a row without fields, which
    is what [csv.reader] gives for an empty line, makes [row[0]] raise
    [IndexError].  Whenever the file has such a row and the rows before it
    were processed, [process_buckets] logs the error and raises
    [IndexError]; the rows after it are never looked at. *)
Theorem empty_row_raises_IndexError W (sdk : aws W) profiles lifecycle_config
    path w rows_before rows_after w0 w1 t1 :
  open_csv sdk path w = (inr (rows_before ++ [] :: rows_after), w0) ->
  for_each rows_before (S3.for_row sdk profiles lifecycle_config) w0 =
    (Ok tt, w1, t1) ->
  S3.process_buckets sdk profiles lifecycle_config path w =
    (Raise IndexError, w1,
     Api (OpenCsv path) (ReturnedRows (rows_before ++ [] :: rows_after))
     :: t1 ++ [LogError (MsgUnexpected IndexError)]).
Proof.
  intros Hopen Hbefore.
  unfold S3.process_buckets, try_except, bind at 1, invoke.
  rewrite Hopen.
  erewrite for_each_stops; [|exact Hbefore|reflexivity].
  cbn. now rewrite app_nil_r.
Qed.

Lemma empty_row_raises_IndexError_witness :
  S3Expire.process_buckets
    (Examples.account Examples.rows_with_empty_line [] Examples.no_log_groups)
    S3Expire.AWS_PROFILES "buckets.csv" tt =
  (Raise IndexError, tt,
   [Api (OpenCsv "buckets.csv")
        (ReturnedRows [["bucket-a"]; []; [" bucket-b "]]);
    LogInfo (MsgProcessingBucket "bucket-a");
    Api (Session "accountid") Returned;
    Api (S3Client "accountid") Returned;
    LogInfo (MsgUsingProfile "accountid");
    Api (HeadBucket "accountid" "bucket-a") Returned;
    Api (PutBucketLifecycleConfiguration "accountid" "bucket-a"
           (S3Expire.lifecycle_config "bucket-a")) Returned;
    LogInfo (MsgPolicyCreated "accountid" "bucket-a");
    LogError (MsgUnexpected IndexError)]).
Proof.
  apply (empty_row_raises_IndexError
           (Examples.account Examples.rows_with_empty_line []
              Examples.no_log_groups)
           S3Expire.AWS_PROFILES S3Expire.lifecycle_config "buckets.csv" tt
           [["bucket-a"]] [[" bucket-b "]] (w0 := tt) (w1 := tt)
           (t1 := [LogInfo (MsgProcessingBucket "bucket-a");
                   Api (Session "accountid") Returned;
                   Api (S3Client "accountid") Returned;
                   LogInfo (MsgUsingProfile "accountid");
                   Api (HeadBucket "accountid" "bucket-a") Returned;
                   Api (PutBucketLifecycleConfiguration "accountid" "bucket-a"
                          (S3Expire.lifecycle_config "bucket-a")) Returned;
                   LogInfo (MsgPolicyCreated "accountid" "bucket-a")]));
    reflexivity.
Defined.

(** With a line of blanks in place of the empty line, the same file is
    read to its end: the blank row is passed over and the names are
    stripped. *)
Example blank_row_is_skipped :
  let run := S3Expire.process_buckets
    (Examples.account Examples.rows_with_blank_line [] Examples.no_log_groups)
    S3Expire.AWS_PROFILES "buckets.csv" tt in
  result_of run = Ok tt /\
  map fst (api_calls (events_of run)) =
    [OpenCsv "buckets.csv";
     Session "accountid"; S3Client "accountid";
     HeadBucket "accountid" "bucket-a";
     PutBucketLifecycleConfiguration "accountid" "bucket-a"
       (S3Expire.lifecycle_config "bucket-a");
     Session "accountid"; S3Client "accountid";
     HeadBucket "accountid" "bucket-b";
     PutBucketLifecycleConfiguration "accountid" "bucket-b"
       (S3Expire.lifecycle_config "bucket-b")].
Proof. split; reflexivity. Qed.

(** The run of [main] on the file with the empty line ends with status 1. *)
Example empty_line_exit_status :
  exit_status (result_of
    (S3Expire.main
       (Examples.account Examples.rows_with_empty_line [] Examples.no_log_groups)
       S3Expire.AWS_PROFILES ["s3_expire.py"; "buckets.csv"] tt)) = 1.
Proof. reflexivity. Qed.

(** ** The policy documents *)

(** C3, as the code has it.  No script validates the day counts and none
    has an [InvalidPolicy] failure: whatever dictionary is built,
    [create_lifecycle_policy] first submits it, and it fails only with the
    error of the service.  The dictionaries of the repository still have
    the transition before the expiration: 180 and 365 days in
    [s3_glacier_expire.py], and [transition_days] and
    [transition_days + 365] in [s3_policy_set_prompts.py]. *)
Theorem policy_is_submitted_unchecked W (sdk : aws W)
    (lifecycle_config : string -> lifecycle_configuration) bucket profile w :
  let run := S3.create_lifecycle_policy sdk lifecycle_config bucket profile w in
  let put := PutBucketLifecycleConfiguration profile bucket
               (lifecycle_config bucket) in
  ((result_of run = Ok tt /\
    events_of run =
      [Api put Returned; LogInfo (MsgPolicyCreated profile bucket)]) \/
   (exists e, result_of run = Raise e /\
    exists logged, events_of run = Api put (Raised e) :: logged)) /\
  S3GlacierExpire.LIFECYCLE_DAYS_TO_GLACIER S3GlacierExpire.shipped <
    S3GlacierExpire.LIFECYCLE_DAYS_TO_EXPIRATION S3GlacierExpire.shipped /\
  S3GlacierExpire.LIFECYCLE_NONCURRENT_DAYS_TO_GLACIER S3GlacierExpire.shipped <
    S3GlacierExpire.LIFECYCLE_NONCURRENT_DAYS_TO_EXPIRATION
      S3GlacierExpire.shipped /\
  (forall transition_days storage_class,
     Forall (fun rule =>
               Forall (fun t => Days t < Expiration_Days rule)
                      (match Transitions rule with Some ts => ts | None => [] end))
            (Rules (S3PolicySetPrompts.lifecycle_config
                      transition_days storage_class bucket))).
Proof.
  cbv zeta. split; [apply create_lifecycle_policy_run|].
  split; [reflexivity|]. split; [reflexivity|].
  intros t sc. cbn. repeat constructor. cbn. lia.
Qed.

(** C3, as the claim has it, fails: with 365 days to the transition and
    180 to the expiration, [create_lifecycle_policy] of
    [s3_glacier_expire.py] submits the dictionary and ends well. *)
Lemma late_transition_is_submitted :
  let s := Examples.late_transition in
  let sdk := Examples.account [] [] Examples.no_log_groups in
  S3GlacierExpire.LIFECYCLE_DAYS_TO_GLACIER s >=
    S3GlacierExpire.LIFECYCLE_DAYS_TO_EXPIRATION s /\
  S3GlacierExpire.create_lifecycle_policy sdk s "bucket-a" "account_id" tt =
    (Ok tt, tt,
     [Api (PutBucketLifecycleConfiguration "account_id" "bucket-a"
             (S3GlacierExpire.lifecycle_config s "bucket-a")) Returned;
      LogInfo (MsgPolicyCreated "account_id" "bucket-a")]) /\
  map (fun rule => (Transitions rule, Expiration_Days rule))
      (Rules (S3GlacierExpire.lifecycle_config s "bucket-a")) =
    [(Some [ {| Days := 365; StorageClass := "GLACIER_IR" |} ], 180)].
Proof. cbv zeta. split; [cbn; lia|]. split; reflexivity. Qed.

(** C4.  In [s3_policy_set_prompts.py], for every [transition_days] and
    storage class, the dictionary built for a bucket has one rule, whose
    expiration and non-current expiration are both [transition_days + 365]
    days and whose non-current transition is the transition of the current
    versions; the dictionary is a function of these two values and the
    bucket name alone, and it is the one every
    [put_bucket_lifecycle_configuration] of [process_buckets] carries. *)
Theorem prompted_policy_days W (sdk : aws W) profiles path
    transition_days storage_class :
  (forall bucket,
     exists rule,
       Rules (S3PolicySetPrompts.lifecycle_config
                transition_days storage_class bucket) = [rule] /\
       Transitions rule =
         Some [ {| Days := transition_days; StorageClass := storage_class |} ] /\
       Expiration_Days rule = transition_days + 365 /\
       NoncurrentVersionExpiration_NoncurrentDays rule =
         transition_days + 365 /\
       NoncurrentVersionTransitions rule = Transitions rule) /\
  emits (submits (S3PolicySetPrompts.lifecycle_config
                    transition_days storage_class))
    (S3PolicySetPrompts.process_buckets sdk profiles path
       transition_days storage_class).
Proof.
  split.
  - intros bucket. eexists. repeat split.
  - apply process_buckets_submits.
Qed.

(** ** The prompts of [s3_policy_set_prompts.py] *)

Lemma str_in_In x xs : str_in x xs = true -> In x xs.
Proof.
  unfold str_in. rewrite existsb_exists. intros [y [Hy E]].
  apply String.eqb_eq in E. now subst.
Qed.

(** The loop ends only with one of the choices. *)
Lemma input_until_choice prompt complaint choices stdin answer :
  result_of (S3PolicySetPrompts.input_until prompt complaint choices stdin) =
    Ok answer ->
  In answer choices.
Proof.
  induction stdin as [|line rest IH]; cbn; [discriminate|].
  destruct (str_in line choices) eqn:E.
  - intros [= <-]. now apply str_in_In.
  - destruct (S3PolicySetPrompts.input_until prompt complaint choices rest)
      as [[r rest'] t]. exact IH.
Qed.

(** The loop does end with the first of the lines that is a choice. *)
Lemma input_until_returns prompt complaint choices refused answer rest :
  Forall (fun line => str_in line choices = false) refused ->
  str_in answer choices = true ->
  result_of (S3PolicySetPrompts.input_until prompt complaint choices
               (refused ++ answer :: rest)) = Ok answer /\
  world_of (S3PolicySetPrompts.input_until prompt complaint choices
              (refused ++ answer :: rest)) = rest.
Proof.
  intros Hrefused Hanswer.
  induction Hrefused as [|line refused Hline _ IH]; cbn.
  - now rewrite Hanswer.
  - rewrite Hline.
    destruct (S3PolicySetPrompts.input_until prompt complaint choices
                (refused ++ answer :: rest)) as [[r rest'] t].
    exact IH.
Qed.

(** When the terminal offers, after any number of refused lines, a day
    count of the list and then, after any number of refused lines, a
    storage class of the list, [get_lifecycle_input] returns them. *)
Lemma get_lifecycle_input_returns refused_days days refused_classes class
    rest n :
  Forall (fun line => str_in line S3PolicySetPrompts.day_choices = false)
         refused_days ->
  str_in days S3PolicySetPrompts.day_choices = true ->
  Forall (fun line => str_in line S3PolicySetPrompts.class_choices = false)
         refused_classes ->
  str_in class S3PolicySetPrompts.class_choices = true ->
  int days = inr n ->
  result_of (S3PolicySetPrompts.get_lifecycle_input
               (refused_days ++ days :: refused_classes ++ class :: rest)) =
  Ok (n, class).
Proof.
  intros Hd1 Hd2 Hc1 Hc2 Hint.
  unfold S3PolicySetPrompts.get_lifecycle_input, bind at 1, print, emit.
  unfold bind at 1.
  destruct (@input_until_returns
              "Enter a number of days (30, 60, 90, 180, 360): "
              "Invalid choice. Please select one of the following options: 30, 60, 90, 180, 360."
              _ _ _ (refused_classes ++ class :: rest) Hd1 Hd2) as [H1 H2].
  destruct (S3PolicySetPrompts.input_until _ _ _
              (refused_days ++ _)) as [[r1 stdin1] t1].
  cbn in H1, H2. subst r1 stdin1.
  unfold bind at 1, bind at 1.
  destruct (@input_until_returns
              "Enter the storage class (GLACIER or GLACIER_IR): "
              "Invalid storage class. Please select one of the following: GLACIER, GLACIER_IR."
              _ _ _ rest Hc1 Hc2) as [H3 H4].
  destruct (S3PolicySetPrompts.input_until _ _ _
              (refused_classes ++ _)) as [[r2 stdin2] t2].
  cbn in H3, H4. subst r2 stdin2.
  rewrite Hint. reflexivity.
Qed.

Lemma get_lifecycle_input_choices stdin days storage_class :
  result_of (S3PolicySetPrompts.get_lifecycle_input stdin) =
    Ok (days, storage_class) ->
  In days [30; 60; 90; 180; 360] /\
  In storage_class ["GLACIER"; "GLACIER_IR"].
Proof.
  unfold S3PolicySetPrompts.get_lifecycle_input, bind at 1, print, emit.
  unfold bind at 1.
  destruct (S3PolicySetPrompts.input_until _ _ _ stdin)
    as [[[answer|e|c] stdin1] t1] eqn:E1; try discriminate.
  unfold bind at 1, bind at 1.
  destruct (S3PolicySetPrompts.input_until _ _ _ stdin1)
    as [[[class|e|c] stdin2] t2] eqn:E2; try discriminate.
  pose proof (input_until_choice _ _ _ stdin
                (f_equal (fun r => result_of r) E1)) as H1.
  pose proof (input_until_choice _ _ _ stdin1
                (f_equal (fun r => result_of r) E2)) as H2.
  cbn in H1.
  destruct H1 as [<-|[<-|[<-|[<-|[<-|[]]]]]]; cbn; intros [= <- <-];
    (split; [cbn; auto 10 | exact H2]).
Qed.

Lemma input_until_emits (P : event -> Prop) prompt complaint choices :
  (forall answer, P (Input prompt answer)) -> P (Print complaint) ->
  emits P (S3PolicySetPrompts.input_until prompt complaint choices).
Proof.
  intros Hinput Hprint stdin.
  induction stdin as [|line rest IH]; cbn; [constructor|].
  destruct (str_in line choices); [repeat constructor; apply Hinput|].
  destruct (S3PolicySetPrompts.input_until prompt complaint choices rest)
    as [[r rest'] t].
  repeat constructor; auto.
Qed.

Lemma get_lifecycle_input_emits :
  emits offered S3PolicySetPrompts.get_lifecycle_input.
Proof.
  unfold S3PolicySetPrompts.get_lifecycle_input.
  repeat first [ apply input_until_emits; intros | emits_step ]; exact I.
Qed.

(** C10.  Whenever [get_lifecycle_input] returns, the day count it returns
    is one of 30, 60, 90, 180 and 360 and the storage class is [GLACIER] or
    [GLACIER_IR]; and every dictionary that a run of [main] submits is
    built from such a pair. *)
Theorem get_lifecycle_input_validated stdin days storage_class :
  result_of (S3PolicySetPrompts.get_lifecycle_input stdin) =
    Ok (days, storage_class) ->
  In days [30; 60; 90; 180; 360] /\
  (storage_class = "GLACIER" \/ storage_class = "GLACIER_IR") /\
  forall W (sdk : aws W) profiles argv,
    emits offered (S3PolicySetPrompts.main sdk profiles argv stdin).
Proof.
  intros H. destruct (get_lifecycle_input_choices _ H) as [Hd Hc].
  split; [exact Hd|]. split; [destruct Hc as [<-|[<-|[]]]; auto|].
  intros W sdk profiles argv.
  unfold S3PolicySetPrompts.main.
  destruct (_ <? _); [repeat emits_step; exact I|].
  apply emits_bind; [apply emits_emit; exact I|]. intros _.
  apply emits_bind_ok.
  - intros w. apply get_lifecycle_input_emits.
  - intros [days' class'] w. unfold S3PolicySetPrompts.at_terminal.
    cbn [result_of fst snd]. fold (result_of
      (S3PolicySetPrompts.get_lifecycle_input stdin)).
    rewrite H. intros [= <- <-].
    repeat emits_step; try exact I.
    eapply emits_weaken; [|apply process_buckets_submits].
    intros [[]| | | |]; cbn; trivial.
    intros ->. exists days, storage_class. auto.
Qed.

Lemma get_lifecycle_input_validated_witness :
  In 30 [30; 60; 90; 180; 360] /\
  ("GLACIER" = "GLACIER" \/ "GLACIER" = "GLACIER_IR") /\
  forall W (sdk : aws W) profiles argv,
    emits offered
      (S3PolicySetPrompts.main sdk profiles argv
         ["45"; "30"; "glacier"; "GLACIER"]).
Proof.
  apply (@get_lifecycle_input_validated
           ["45"; "30"; "glacier"; "GLACIER"] 30 "GLACIER").
  reflexivity.
Defined.

(** ** Existence checks before writes *)

Lemma api_calls_app t1 t2 : api_calls (t1 ++ t2) = api_calls t1 ++ api_calls t2.
Proof. apply flat_map_app. Qed.

Lemma guard_run_app g cs1 cs2 :
  guard_run g (cs1 ++ cs2) =
  match guard_run g cs1 with
  | Some g' => guard_run g' cs2
  | None => None
  end.
Proof.
  revert g. induction cs1 as [|c cs1 IH]; intros g; cbn; [reflexivity|].
  destruct (guard_step g c); [apply IH | reflexivity].
Qed.

Lemma guard_run_stopped p b e cs g' :
  guard_run (Stopped p b e) cs = Some g' -> cs = [] /\ g' = Stopped p b e.
Proof. destruct cs; cbn; [now intros [= <-] | discriminate]. Qed.

Lemma agrees_ok A g (a : A) : agrees g (Ok a) -> not_stopped g.
Proof. destruct g; cbn; trivial. discriminate. Qed.

Lemma agrees_raise A B g e : @agrees A g (Raise e) -> @agrees B g (Raise e).
Proof. destruct g; cbn; trivial. now intros [= ->]. Qed.

Lemma agrees_exit A B g c : @agrees A g (Exit c) -> @agrees B g (Exit c).
Proof. destruct g; cbn; trivial. discriminate. Qed.

Lemma guard_step_checked g c p b :
  guard_step g c = Some (Checked p b) -> c = (HeadBucket p b, Returned).
Proof.
  destruct g as [|p' b'|p' b' e'], c as [[] []]; cbn;
    try discriminate; try (now intros [= <- <-]);
    destruct (String.eqb _ _ && String.eqb _ _)%bool; discriminate.
Qed.

(** A write is accepted only right after the check of its profile and
    bucket. *)
Lemma guard_run_put g cs g' before p b config r after :
  guard_run g cs = Some g' ->
  cs = before ++ (PutBucketLifecycleConfiguration p b config, r) :: after ->
  (before = [] /\ g = Checked p b) \/
  exists before', before = before' ++ [(HeadBucket p b, Returned)].
Proof.
  intros Hrun ->. revert g Hrun.
  induction before as [|c before IH]; intros g Hrun; cbn in Hrun.
  - left. split; [reflexivity|].
    destruct g as [|p' b'|]; cbn in Hrun; try discriminate Hrun.
    destruct (String.eqb p p' && String.eqb b b')%bool eqn:E;
      [|discriminate Hrun].
    apply andb_prop in E. destruct E as [E1 E2].
    apply String.eqb_eq in E1, E2. now subst.
  - right. destruct (guard_step g c) as [g1|] eqn:Hstep; [|discriminate].
    destruct (IH _ Hrun) as [[-> ->]|[before' ->]].
    + exists []. cbn. f_equal. now apply guard_step_checked in Hstep.
    + now exists (c :: before').
Qed.

(** Nothing is called after a check that failed. *)
Lemma guard_run_head_raised g cs g' before p b e after :
  guard_run g cs = Some g' ->
  cs = before ++ (HeadBucket p b, Raised e) :: after ->
  after = [] /\ g' = Stopped p b e.
Proof.
  intros Hrun ->. rewrite guard_run_app in Hrun.
  destruct (guard_run g before) as [g1|]; [|discriminate].
  cbn in Hrun. destruct g1; cbn in Hrun;
    try discriminate; now apply guard_run_stopped in Hrun.
Qed.

Ltac settle g :=
  destruct g; cbn in *; try contradiction;
  (split; [try reflexivity | trivial]).

Section Guarded.

Variable W : Type.

Lemma guarded_ret A (a : A) : guarded (@ret W A a).
Proof. intros w g Hg. exists g. split; [reflexivity|]. now destruct g. Qed.

Lemma guarded_raise A e : guarded (@raise W A e).
Proof. intros w g Hg. exists g. split; [reflexivity|]. now destruct g. Qed.

Lemma guarded_log A (m : M W A) :
  (forall w, api_calls (events_of (m w)) = []) -> guarded m.
Proof.
  intros H w g Hg. exists g. rewrite H. split; [reflexivity|]. now destruct g.
Qed.

Lemma guarded_bind A B (m : M W A) (k : A -> M W B) :
  guarded m -> (forall a, guarded (k a)) -> guarded (bind m k).
Proof.
  intros Hm Hk w g Hg. unfold bind.
  destruct (Hm w g Hg) as [g1 [Hrun1 Hres1]].
  destruct (m w) as [[[a|e|c] w1] t1]; cbn [result_of events_of fst snd] in *;
    eauto using agrees_raise, agrees_exit.
  apply agrees_ok in Hres1.
  destruct (Hk a w1 g1 Hres1) as [g2 [Hrun2 Hres2]].
  destruct (k a w1) as [[r w2] t2]. cbn [result_of events_of fst snd] in *.
  exists g2. rewrite api_calls_app, guard_run_app, Hrun1. auto.
Qed.

(** A handler that logs and raises the exception again. *)
Lemma guarded_reraise A (m : M W A) h :
  guarded m ->
  (forall e w, result_of (h e w) = Raise e /\
               api_calls (events_of (h e w)) = []) ->
  guarded (try_except m h).
Proof.
  intros Hm Hh w g Hg. unfold try_except.
  destruct (Hm w g Hg) as [g1 [Hrun1 Hres1]].
  destruct (m w) as [[[a|e|c] w1] t1]; cbn [result_of events_of fst snd] in *; eauto.
  destruct (Hh e w1) as [Hr Hc].
  destruct (h e w1) as [[r w2] t2]. cbn [result_of events_of fst snd] in *. subst r.
  exists g1. rewrite api_calls_app, Hc, app_nil_r. auto.
Qed.

Lemma guarded_for_each A (xs : list A) (body : A -> M W unit) :
  (forall x, guarded (body x)) -> guarded (for_each xs body).
Proof.
  intros H. induction xs as [|x xs IH]; cbn.
  - apply guarded_ret.
  - apply guarded_bind; [apply H | intros _; exact IH].
Qed.

Variable sdk : aws W.
Variable profiles : list string.
Variable lifecycle_config : string -> lifecycle_configuration.

(** One profile of one bucket: the four calls, each of which may fail. *)
Lemma for_profile_guarded bucket profile :
  guarded (S3.for_profile sdk lifecycle_config bucket profile).
Proof.
  intros w g Hg.
  unfold S3.for_profile, S3.create_lifecycle_policy, try_except, bind,
    invoke, log_info, log_error, emit, raise, done.
  destruct (session sdk profile w) as [[e1|[]] w1];
    [exists Idle; settle g|].
  destruct (s3_client sdk profile w1) as [[e2|[]] w2];
    [exists Idle; settle g|].
  destruct (head_bucket sdk profile bucket w2) as [[e3|[]] w3].
  - exists (Stopped profile bucket e3).
    destruct (is_ClientError e3) eqn:E; settle g;
      unfold inaccessible; rewrite E; reflexivity.
  - destruct (put_bucket_lifecycle_configuration sdk profile bucket _ w3)
      as [[e4|[]] w4].
    + exists Idle. destruct (is_ClientError e4) eqn:E; cbn; rewrite ?E;
        settle g; rewrite ?E, ?String.eqb_refl; reflexivity.
    + exists Idle. settle g; rewrite ?String.eqb_refl; reflexivity.
Qed.

Lemma process_buckets_guarded path :
  guarded (S3.process_buckets sdk profiles lifecycle_config path).
Proof.
  unfold S3.process_buckets. apply guarded_reraise.
  - apply guarded_bind.
    + intros w g Hg. unfold invoke.
      destruct (open_csv sdk path w) as [[e|rows] w']; exists Idle;
        settle g.
    + intros rows. apply guarded_for_each. intros [|field row]; cbn.
      * apply guarded_raise.
      * destruct (is_empty (strip field)); [apply guarded_ret|].
        apply guarded_bind; [now apply guarded_log|]. intros _.
        apply guarded_for_each. intros profile. apply for_profile_guarded.
  - intros e w. now destruct (is_FileNotFoundError e).
Qed.

End Guarded.



(** ** Properties of traces that pass to concatenations *)

Section Traces.

Variable W : Type.
Variable Q : list event -> Prop.
Hypothesis Q_nil : Q [].
Hypothesis Q_app : forall t1 t2, Q t1 -> Q t2 -> Q (t1 ++ t2).

Lemma traces_ret A (a : A) : traces Q (@ret W A a).
Proof. intros w. exact Q_nil. Qed.

Lemma traces_raise A e : traces Q (@raise W A e).
Proof. intros w. exact Q_nil. Qed.

Lemma traces_bind A B (m : M W A) (k : A -> M W B) :
  traces Q m -> (forall a, traces Q (k a)) -> traces Q (bind m k).
Proof.
  intros Hm Hk w. unfold bind. specialize (Hm w).
  destruct (m w) as [[[a|e|c] w1] t1]; cbn in Hm; try exact Hm.
  specialize (Hk a w1). destruct (k a w1) as [[r w2] t2].
  cbn in *. now apply Q_app.
Qed.

Lemma traces_try_except A (m : M W A) h :
  traces Q m -> (forall e, traces Q (h e)) -> traces Q (try_except m h).
Proof.
  intros Hm Hh w. unfold try_except. specialize (Hm w).
  destruct (m w) as [[[a|e|c] w1] t1]; cbn in Hm; try exact Hm.
  specialize (Hh e w1). destruct (h e w1) as [[r w2] t2].
  cbn in *. now apply Q_app.
Qed.

Lemma traces_for_each A (xs : list A) (body : A -> M W unit) :
  (forall x, traces Q (body x)) -> traces Q (for_each xs body).
Proof.
  intros H. induction xs as [|x xs IH]; cbn.
  - apply traces_ret.
  - apply traces_bind; [apply H | intros _; exact IH].
Qed.

End Traces.

(** ** What the conditional retention script changes *)

Lemma explained_incl s seen seen' e :
  incl seen seen' -> explained s seen e -> explained s seen' e.
Proof.
  intros Hincl. destruct e as [[] r| | | |]; cbn; trivial.
  intros [Hd [page [lg [Hin H]]]]. split; [exact Hd|].
  exists page, lg. split; [|exact H]. now apply Hincl.
Qed.

Lemma accounted_from_app s seen t1 t2 :
  accounted_from s seen (t1 ++ t2) <->
  accounted_from s seen t1 /\ accounted_from s (seen ++ t1) t2.
Proof.
  revert seen. induction t1 as [|e t1 IH]; intros seen; cbn.
  - rewrite app_nil_r. tauto.
  - rewrite IH, <- app_assoc. cbn. tauto.
Qed.

(** Events explained by [base] are explained wherever [base] was seen. *)
Lemma accounted_from_base s base seen t :
  Forall (explained s base) t -> incl base seen -> accounted_from s seen t.
Proof.
  intros H. revert seen. induction H as [|e t He _ IH]; intros seen Hincl;
    cbn; [exact I|].
  split.
  - now apply (@explained_incl s base seen e Hincl).
  - apply IH. now apply incl_appl.
Qed.

Lemma accounted_nil s : accounted s [].
Proof. intros seen. exact I. Qed.

Lemma accounted_app s t1 t2 :
  accounted s t1 -> accounted s t2 -> accounted s (t1 ++ t2).
Proof. intros H1 H2 seen. apply accounted_from_app. split; auto. Qed.

(** Events that need no page to be explained. *)
Lemma accounted_plain s t :
  Forall (explained s []) t -> accounted s t.
Proof.
  intros H seen. apply (@accounted_from_base s [] seen t H). intros e [].
Qed.

(** In an accounted trace, what comes before an event explains it. *)
Lemma accounted_split s before e after :
  accounted s (before ++ e :: after) -> explained s before e.
Proof.
  intros H. specialize (H []). apply accounted_from_app in H.
  destruct H as [_ [H _]]. exact H.
Qed.

Section TargetFacts.

Variable W : Type.
Variable sdk : aws W.
Variable s : CloudWatchTarget.settings.

Local Abbreviation accounts := (traces (W := W) (accounted s)).

Lemma accounts_plain A (m : M W A) :
  emits (explained s []) m -> accounts m.
Proof. intros H w. apply accounted_plain, H. Qed.

Lemma for_log_group_explained region profile page log_group :
  In log_group page ->
  emits (explained_by_page s profile region page)
    (CloudWatchTarget.for_log_group sdk s region profile log_group).
Proof.
  intros Hin. unfold CloudWatchTarget.for_log_group.
  destruct (CloudWatchTarget.retention_is_target s log_group) eqn:E;
    repeat emits_step; try exact I.
  apply retention_is_target_iff in E.
  split; [reflexivity|]. exists page, log_group. cbn. auto.
Qed.

(** The events of a page are explained by the page that precedes them. *)
Lemma page_accounted profile region page t :
  Forall (explained_by_page s profile region page) t ->
  accounted s
    (Api (DescribeLogGroups profile region) (ReturnedPage page) :: t).
Proof.
  intros H seen. split; [exact I|].
  apply (@accounted_from_base s [_] _ t H). intros e [<-|[]].
  apply in_or_app. right. now left.
Qed.

Lemma for_each_page_accounts region profile (pages : page_stream W) :
  accounts
    (for_each_page profile region pages
       (fun logGroups =>
          for_each logGroups
            (CloudWatchTarget.for_log_group sdk s region profile))).
Proof.
  revert pages. fix IH 1. intros [next] w. rewrite for_each_page_eq.
  destruct (next w) as [|w' e|w' page rest].
  - apply accounted_nil.
  - apply accounted_plain. repeat constructor.
  - unfold bind at 1, emit. unfold bind.
    assert (Hpage : emits (explained_by_page s profile region page)
              (for_each page
                 (CloudWatchTarget.for_log_group sdk s region profile)))
      by (apply emits_for_each; intros lg; apply for_log_group_explained).
    specialize (Hpage w').
    destruct (for_each page _ w') as [[[[]|e|c] w1] t1]; cbn in Hpage |- *;
      try (now apply page_accounted).
    specialize (IH rest w1).
    destruct (for_each_page profile region rest _ w1) as [[r w2] t2].
    cbn in IH |- *.
    change (accounted s ((Api (DescribeLogGroups profile region)
                            (ReturnedPage page) :: t1) ++ t2)).
    apply accounted_app; [now apply page_accounted | exact IH].
Qed.

Lemma set_retention_for_log_groups_accounts region profile :
  accounts (CloudWatchTarget.set_retention_for_log_groups sdk s region profile).
Proof.
  unfold CloudWatchTarget.set_retention_for_log_groups,
    CloudWatch.set_retention_for_log_groups.
  apply traces_try_except; auto using accounted_app.
  - repeat (apply traces_bind; auto using accounted_app;
            [apply accounts_plain; repeat emits_step; exact I | intros _]).
    apply for_each_page_accounts.
  - intros e. apply accounts_plain. repeat emits_step; exact I.
Qed.

Lemma for_profile_accounts regions logger profile :
  accounts (CloudWatch.for_profile sdk regions
              (CloudWatchTarget.for_log_group sdk s) logger profile).
Proof.
  assert (Hplain : forall l e,
            accounts (CloudWatch.on_profile_error (W := W) l profile e)).
  { intros l e. apply accounts_plain.
    unfold CloudWatch.on_profile_error. repeat emits_step; exact I. }
  unfold CloudWatch.for_profile, CloudWatch.setup_logging.
  apply traces_try_except; auto using accounted_app.
  apply traces_bind; auto using accounted_app.
  { apply accounts_plain. repeat emits_step; exact I. }
  intros _. apply traces_try_except; auto using accounted_app.
  apply traces_bind; auto using accounted_app.
  { apply accounts_plain. repeat emits_step; exact I. }
  intros _. apply traces_bind; auto using accounted_app.
  - apply traces_for_each; auto using accounted_app, accounted_nil.
    intros region. apply traces_bind; auto using accounted_app.
    + apply accounts_plain. repeat emits_step; exact I.
    + intros _. apply set_retention_for_log_groups_accounts.
  - intros _. apply accounts_plain. repeat emits_step; exact I.
Qed.

Lemma script_accounts profiles regions :
  accounts (CloudWatchTarget.script sdk profiles regions s).
Proof.
  unfold CloudWatchTarget.script, CloudWatch.script,
    CloudWatch.process_log_groups.
  apply traces_bind; auto using accounted_app.
  - generalize false as logger.
    induction profiles as [|profile rest IH]; intros logger; cbn.
    + apply traces_ret, accounted_nil.
    + apply traces_bind; auto using accounted_app.
      apply for_profile_accounts.
  - intros _. apply accounts_plain. repeat emits_step; exact I.
Qed.

End TargetFacts.

(** C9.  In every run of the conditional script with the constants of the
    repository, the calls are the creation of sessions, clients and log
    handlers, the listing of log groups, and [put_retention_policy] with
    30 days; and each [put_retention_policy] is for a log group that a
    page of the same profile and region, listed earlier in the run, shows
    with a retention of exactly 14 days.  So a log group that no page of
    the run shows with 14 days is not written to. *)
Theorem only_target_groups_are_updated W (sdk : aws W) profiles regions w :
  let t := events_of (CloudWatchTarget.script sdk profiles regions
                        CloudWatchTarget.shipped w) in
  (forall before c r after, t = before ++ Api c r :: after ->
     match c with
     | PutRetentionPolicy profile region name days =>
         days = 30 /\
         exists page log_group,
           In (Api (DescribeLogGroups profile region) (ReturnedPage page))
              before /\
           In log_group page /\
           logGroupName log_group = name /\
           retentionInDays log_group = Some 14
     | Session _ | LogsClient _ _ | DescribeLogGroups _ _
     | SetupLogging _ => True
     | _ => False
     end) /\
  (forall profile region name,
     (forall page log_group,
        In (Api (DescribeLogGroups profile region) (ReturnedPage page)) t ->
        In log_group page -> logGroupName log_group = name ->
        retentionInDays log_group <> Some 14) ->
     forall days r,
       ~ In (Api (PutRetentionPolicy profile region name days) r) t).
Proof.
  cbv zeta.
  pose proof (script_accounts sdk CloudWatchTarget.shipped profiles regions w)
    as H.
  set (t := events_of _) in *.
  assert (Hcalls : forall before c r after, t = before ++ Api c r :: after ->
    match c with
    | PutRetentionPolicy profile region name days =>
        days = 30 /\
        exists page log_group,
          In (Api (DescribeLogGroups profile region) (ReturnedPage page))
             before /\
          In log_group page /\
          logGroupName log_group = name /\
          retentionInDays log_group = Some 14
    | Session _ | LogsClient _ _ | DescribeLogGroups _ _
    | SetupLogging _ => True
    | _ => False
    end).
  { intros before c r after E. rewrite E in H.
    apply accounted_split in H. destruct c; exact H. }
  split; [exact Hcalls|].
  intros profile region name Hnone days r Hin.
  destruct (in_split _ _ Hin) as [before [after E]].
  destruct (Hcalls _ _ _ _ E) as [_ [page [lg [Hpage [Hlg [Hname Hret]]]]]].
  apply (Hnone page lg); auto.
  rewrite E. apply in_or_app. now left.
Qed.

Lemma only_target_groups_are_updated_witness :
  let before :=
    [Api (SetupLogging "accountid") Returned;
     LogInfo (MsgStarted "accountid");
     LogInfo (MsgProcessingRegion "us-east-1");
     Api (Session "accountid") Returned;
     Api (LogsClient "accountid" "us-east-1") Returned;
     Api (DescribeLogGroups "accountid" "us-east-1")
         (ReturnedPage [Examples.g1; Examples.g2]);
     LogInfo (MsgSettingRetentionFrom "accountid" "g1" 14 30)] in
  30 = 30 /\
  exists page log_group,
    In (Api (DescribeLogGroups "accountid" "us-east-1") (ReturnedPage page))
       before /\
    In log_group page /\
    logGroupName log_group = "g1" /\
    retentionInDays log_group = Some 14.
Proof.
  cbv zeta.
  refine (proj1 (only_target_groups_are_updated
                   (Examples.account [] [] Examples.broken_east)
                   CloudWatchTarget.aws_profiles CloudWatchTarget.regions tt)
            [Api (SetupLogging "accountid") Returned;
             LogInfo (MsgStarted "accountid");
             LogInfo (MsgProcessingRegion "us-east-1");
             Api (Session "accountid") Returned;
             Api (LogsClient "accountid" "us-east-1") Returned;
             Api (DescribeLogGroups "accountid" "us-east-1")
                 (ReturnedPage [Examples.g1; Examples.g2]);
             LogInfo (MsgSettingRetentionFrom "accountid" "g1" 14 30)]
            (PutRetentionPolicy "accountid" "us-east-1" "g1" 30) Returned
            [LogInfo (MsgSkipping "accountid" "g2" (Some 30));
             Api (DescribeLogGroups "accountid" "us-east-1")
                 (Raised (ClientError "ThrottlingException"));
             LogError (MsgRegionError "us-east-1" "accountid"
                         (ClientError "ThrottlingException"));
             LogError MsgTraceback;
             LogError (MsgProfileError "accountid"
                         (ClientError "ThrottlingException"));
             LogError MsgTraceback;
             Print "Retention policy update complete. Check the log file for details."]
            eq_refl).
Defined.

(** ** Failures in the CloudWatch scripts *)

Section RetentionFailures.

Variable W : Type.
Variable sdk : aws W.
Variable regions : list string.
Variable for_log_group : string -> string -> log_group -> M W unit.

Lemma for_profiles_cons logger profile rest w :
  CloudWatch.for_profiles sdk regions for_log_group logger (profile :: rest) w =
  match CloudWatch.for_profile sdk regions for_log_group logger profile w with
  | (Ok logger', w1, t1) =>
      (result_of (CloudWatch.for_profiles sdk regions for_log_group
                    logger' rest w1),
       world_of (CloudWatch.for_profiles sdk regions for_log_group
                   logger' rest w1),
       t1 ++ events_of (CloudWatch.for_profiles sdk regions for_log_group
                          logger' rest w1))
  | (Raise e, w1, t1) => (Raise e, w1, t1)
  | (Exit c, w1, t1) => (Exit c, w1, t1)
  end.
Proof.
  cbn [CloudWatch.for_profiles]. unfold bind.
  destruct (CloudWatch.for_profile _ _ _ _ _ _) as [[[l|e|c] w1] t1];
    try reflexivity.
  now destruct (CloudWatch.for_profiles _ _ _ _ _ _) as [[r w2] t2].
Qed.

(** A request for a page that fails, after any number of pages, makes
    [set_retention_for_log_groups] log the error and raise it again. *)
Lemma page_error_is_raised region profile e w w1 w2 w3 t :
  session sdk profile w = (inr tt, w1) ->
  logs_client sdk profile region w1 = (inr tt, w2) ->
  for_each_page profile region (describe_log_groups sdk profile region)
    (fun logGroups => for_each logGroups (for_log_group region profile)) w2 =
    (Raise e, w3, t) ->
  CloudWatch.set_retention_for_log_groups sdk for_log_group region profile w =
    (Raise e, w3,
     [Api (Session profile) Returned;
      Api (LogsClient profile region) Returned] ++ t ++
     [LogError (MsgRegionError region profile e); LogError MsgTraceback]).
Proof.
  intros Hsession Hclient Hpages.
  unfold CloudWatch.set_retention_for_log_groups, try_except, bind, invoke.
  rewrite Hsession, Hclient, Hpages. reflexivity.
Qed.

(** A region that raises ends the work on its profile: the handler of
    [process_log_groups] logs the error and the profile is over. *)
Lemma for_profile_stops logger profile before region after e w w0 w1 t1
    w2 t2 :
  regions = before ++ region :: after ->
  file_handler sdk profile w = (inr tt, w0) ->
  for_each before (CloudWatch.for_region sdk for_log_group profile) w0 =
    (Ok tt, w1, t1) ->
  CloudWatch.set_retention_for_log_groups sdk for_log_group region profile w1 =
    (Raise e, w2, t2) ->
  CloudWatch.for_profile sdk regions for_log_group logger profile w =
    (Ok true, w2,
     [Api (SetupLogging profile) Returned; LogInfo (MsgStarted profile)] ++
     t1 ++ [LogInfo (MsgProcessingRegion region)] ++ t2 ++
     [LogError (MsgProfileError profile e); LogError MsgTraceback]).
Proof.
  intros -> Hsetup Hbefore Hregion.
  assert (Hloop : for_each (before ++ region :: after)
                    (CloudWatch.for_region sdk for_log_group profile) w0 =
                  (Raise e, w2, t1 ++ LogInfo (MsgProcessingRegion region) :: t2)).
  { eapply for_each_stops; [exact Hbefore|].
    unfold CloudWatch.for_region, bind, log_info, emit. now rewrite Hregion. }
  unfold CloudWatch.for_profile, CloudWatch.setup_logging, invoke.
  unfold try_except at 1, bind at 1. rewrite Hsetup.
  unfold try_except at 1, bind at 1, log_info at 1, emit at 1.
  unfold bind at 1. rewrite Hloop.
  cbn. now rewrite <- !app_assoc.
Qed.

End RetentionFailures.

(** C7, as the code has it.  When a region of a profile raises, by a
    failed request for a page or otherwise, after the regions [before] it
    were done, the work on that profile ends there: the trace of the
    profile holds the regions [before], the failing region and the two
    error records, and nothing of the regions [after]; the profiles after
    it are processed next, from the world the failure left. *)
Theorem region_failure_ends_profile W (sdk : aws W) for_log_group logger
    profile later_profiles before region after e w w0 w1 t1 w2 t2 :
  let regions := before ++ region :: after in
  let rest := CloudWatch.for_profiles sdk regions for_log_group true
                later_profiles w2 in
  file_handler sdk profile w = (inr tt, w0) ->
  for_each before (CloudWatch.for_region sdk for_log_group profile) w0 =
    (Ok tt, w1, t1) ->
  CloudWatch.set_retention_for_log_groups sdk for_log_group region profile w1 =
    (Raise e, w2, t2) ->
  CloudWatch.for_profiles sdk regions for_log_group logger
    (profile :: later_profiles) w =
  (result_of rest, world_of rest,
   ([Api (SetupLogging profile) Returned; LogInfo (MsgStarted profile)] ++
    t1 ++ [LogInfo (MsgProcessingRegion region)] ++ t2 ++
    [LogError (MsgProfileError profile e); LogError MsgTraceback]) ++
   events_of rest).
Proof.
  intros regions rest Hsetup Hbefore Hregion.
  rewrite for_profiles_cons.
  rewrite (@for_profile_stops W sdk regions for_log_group logger profile
             before region after e w w0 w1 t1 w2 t2 eq_refl Hsetup Hbefore
             Hregion).
  reflexivity.
Qed.

Lemma region_failure_ends_profile_witness :
  CloudWatchTarget.process_log_groups
    (Examples.account [] [] Examples.broken_east)
    ["a"; "b"] ["us-east-1"; "us-west-1"] CloudWatchTarget.shipped tt =
  (Ok tt, tt,
   [Api (SetupLogging "a") Returned; LogInfo (MsgStarted "a");
    LogInfo (MsgProcessingRegion "us-east-1");
    Api (Session "a") Returned; Api (LogsClient "a" "us-east-1") Returned;
    Api (DescribeLogGroups "a" "us-east-1")
        (ReturnedPage [Examples.g1; Examples.g2]);
    LogInfo (MsgSettingRetentionFrom "a" "g1" 14 30);
    Api (PutRetentionPolicy "a" "us-east-1" "g1" 30) Returned;
    LogInfo (MsgSkipping "a" "g2" (Some 30));
    Api (DescribeLogGroups "a" "us-east-1")
        (Raised (ClientError "ThrottlingException"));
    LogError (MsgRegionError "us-east-1" "a"
                (ClientError "ThrottlingException"));
    LogError MsgTraceback;
    LogError (MsgProfileError "a" (ClientError "ThrottlingException"));
    LogError MsgTraceback;
    Api (SetupLogging "b") Returned; LogInfo (MsgStarted "b");
    LogInfo (MsgProcessingRegion "us-east-1");
    Api (Session "b") Returned; Api (LogsClient "b" "us-east-1") Returned;
    Api (DescribeLogGroups "b" "us-east-1")
        (ReturnedPage [Examples.g1; Examples.g2]);
    LogInfo (MsgSettingRetentionFrom "b" "g1" 14 30);
    Api (PutRetentionPolicy "b" "us-east-1" "g1" 30) Returned;
    LogInfo (MsgSkipping "b" "g2" (Some 30));
    Api (DescribeLogGroups "b" "us-east-1")
        (Raised (ClientError "ThrottlingException"));
    LogError (MsgRegionError "us-east-1" "b"
                (ClientError "ThrottlingException"));
    LogError MsgTraceback;
    LogError (MsgProfileError "b" (ClientError "ThrottlingException"));
    LogError MsgTraceback]).
Proof.
  exact (@region_failure_ends_profile unit
           (Examples.account [] [] Examples.broken_east)
           (CloudWatchTarget.for_log_group
              (Examples.account [] [] Examples.broken_east)
              CloudWatchTarget.shipped)
           false "a" ["b"] [] "us-east-1" ["us-west-1"]
           (ClientError "ThrottlingException") tt tt tt [] tt
           [Api (Session "a") Returned;
            Api (LogsClient "a" "us-east-1") Returned;
            Api (DescribeLogGroups "a" "us-east-1")
                (ReturnedPage [Examples.g1; Examples.g2]);
            LogInfo (MsgSettingRetentionFrom "a" "g1" 14 30);
            Api (PutRetentionPolicy "a" "us-east-1" "g1" 30) Returned;
            LogInfo (MsgSkipping "a" "g2" (Some 30));
            Api (DescribeLogGroups "a" "us-east-1")
                (Raised (ClientError "ThrottlingException"));
            LogError (MsgRegionError "us-east-1" "a"
                        (ClientError "ThrottlingException"));
            LogError MsgTraceback]
           eq_refl eq_refl eq_refl).
Defined.

(** C7, as the claim has it, fails: the request for the second page of
    [us-east-1] fails, and the three regions after it are not processed
    for this profile.  The whole run of the script with the constants of
    the repository: *)
Lemma later_regions_are_not_processed :
  CloudWatchTarget.regions =
    ["us-east-1"; "us-west-1"; "us-west-2"; "us-east-2"] /\
  events_of
    (CloudWatchTarget.process_log_groups
       (Examples.account [] [] Examples.broken_east)
       CloudWatchTarget.aws_profiles CloudWatchTarget.regions
       CloudWatchTarget.shipped tt) =
  [Api (SetupLogging "accountid") Returned; LogInfo (MsgStarted "accountid");
   LogInfo (MsgProcessingRegion "us-east-1");
   Api (Session "accountid") Returned;
   Api (LogsClient "accountid" "us-east-1") Returned;
   Api (DescribeLogGroups "accountid" "us-east-1")
       (ReturnedPage [Examples.g1; Examples.g2]);
   LogInfo (MsgSettingRetentionFrom "accountid" "g1" 14 30);
   Api (PutRetentionPolicy "accountid" "us-east-1" "g1" 30) Returned;
   LogInfo (MsgSkipping "accountid" "g2" (Some 30));
   Api (DescribeLogGroups "accountid" "us-east-1")
       (Raised (ClientError "ThrottlingException"));
   LogError (MsgRegionError "us-east-1" "accountid"
               (ClientError "ThrottlingException"));
   LogError MsgTraceback;
   LogError (MsgProfileError "accountid" (ClientError "ThrottlingException"));
   LogError MsgTraceback].
Proof. split; reflexivity. Qed.

(** ** Exit status *)

Section RetentionExit.

Variable W : Type.
Variable sdk : aws W.
Variable regions : list string.
Variable for_log_group : string -> string -> log_group -> M W unit.

Hypothesis for_log_group_never_exits :
  forall region profile log_group,
    never_exits (for_log_group region profile log_group).

(** The log file of every profile can be opened. *)
Hypothesis log_files_open :
  forall profile w, exists w', file_handler sdk profile w = (inr tt, w').

Lemma for_region_never_exits profile region :
  never_exits (CloudWatch.for_region sdk for_log_group profile region).
Proof.
  unfold CloudWatch.for_region, CloudWatch.set_retention_for_log_groups.
  repeat never_exits_step.
  apply never_exits_for_each_page. intros logGroups.
  apply never_exits_for_each. intros lg. apply for_log_group_never_exits.
Qed.

(** With its log file open, the work on a profile always ends well. *)
Lemma for_profile_returns logger profile w :
  result_of (CloudWatch.for_profile sdk regions for_log_group logger profile w)
  = Ok true.
Proof.
  unfold CloudWatch.for_profile, CloudWatch.setup_logging, invoke.
  unfold try_except at 1, bind at 1.
  destruct (log_files_open profile w) as [w0 ->].
  match goal with
  | |- context [try_except ?b ?h w0] =>
      assert (Hbody : never_exits b)
  end.
  { repeat never_exits_step. apply for_region_never_exits. }
  unfold try_except. specialize (Hbody w0).
  match goal with
  | |- context [match ?m w0 with _ => _ end] =>
      destruct (m w0) as [[[l|e|c] w1] t1] eqn:E
  end; cbn in *.
  - revert E. unfold bind, log_info, emit, ret.
    destruct (for_each _ _ w0) as [[[[]|e|c] w2] t2]; now intros [= <- _ _].
  - reflexivity.
  - now destruct (Hbody c).
Qed.

Lemma script_returns profiles w :
  result_of (CloudWatch.script sdk profiles regions for_log_group w) = Ok tt.
Proof.
  unfold CloudWatch.script, CloudWatch.process_log_groups, bind.
  assert (H : forall logger w,
            result_of (CloudWatch.for_profiles sdk regions for_log_group
                         logger profiles w) = Ok tt).
  { induction profiles as [|profile rest IH]; intros logger w1;
      [reflexivity|].
    rewrite for_profiles_cons.
    pose proof (for_profile_returns logger profile w1) as Hp.
    destruct (CloudWatch.for_profile _ _ _ _ _ _) as [[r w2] t2].
    cbn in Hp. subst r. apply IH. }
  specialize (H false w).
  destruct (CloudWatch.for_profiles _ _ _ _ _ _) as [[r w1] t1].
  cbn in H. now subst r.
Qed.

End RetentionExit.

Lemma get_lifecycle_input_never_exits :
  never_exits S3PolicySetPrompts.get_lifecycle_input.
Proof.
  assert (H : forall prompt complaint choices,
            never_exits (S3PolicySetPrompts.input_until prompt complaint
                           choices)).
  { intros prompt complaint choices stdin code.
    induction stdin as [|line rest IH]; cbn; [discriminate|].
    destruct (str_in line choices); [discriminate|].
    destruct (S3PolicySetPrompts.input_until _ _ _ rest) as [[r rest'] t].
    exact IH. }
  unfold S3PolicySetPrompts.get_lifecycle_input.
  repeat first [ apply H | never_exits_step ].
Qed.

Lemma all_never_exits W (sdk : aws W) region profile log_group :
  never_exits (CloudWatchAll.for_log_group sdk region profile log_group).
Proof. unfold CloudWatchAll.for_log_group. repeat never_exits_step. Qed.

Lemma target_never_exits W (sdk : aws W) s region profile log_group :
  never_exits (CloudWatchTarget.for_log_group sdk s region profile log_group).
Proof. unfold CloudWatchTarget.for_log_group. repeat never_exits_step. Qed.

(** The status of a call of [main]: 1 without the path of the CSV file,
    otherwise by the way [process_buckets] ends. *)
Lemma main_exit_status W (sdk : aws W) profiles lifecycle_config argv w :
  exit_status (result_of (S3.main sdk profiles lifecycle_config argv w)) =
  if Z.of_nat (List.length argv) <? 2 then 1
  else match result_of (S3.process_buckets sdk profiles lifecycle_config
                          (List.nth 1 argv EmptyString) w) with
       | Ok _ => 0
       | _ => 1
       end.
Proof.
  unfold S3.main.
  destruct (_ <? _); [reflexivity|].
  unfold bind at 1, log_info at 1, emit, try_except, bind.
  pose proof (@process_buckets_never_exits W sdk profiles lifecycle_config
                (List.nth 1 argv EmptyString) w) as Hexit.
  destruct (S3.process_buckets _ _ _ _ w) as [[[[]|e|c] w1] t1];
    cbn in *; try reflexivity.
  now destruct (Hexit c).
Qed.

Lemma prompted_main_exit_status W (sdk : aws W) profiles argv stdin w :
  exit_status (result_of (S3PolicySetPrompts.main sdk profiles argv
                            stdin w)) =
  if Z.of_nat (List.length argv) <? 2 then 1
  else match result_of (S3PolicySetPrompts.get_lifecycle_input stdin) with
       | Ok (transition_days, storage_class) =>
           match result_of (S3PolicySetPrompts.process_buckets sdk profiles
                              (List.nth 1 argv EmptyString)
                              transition_days storage_class w) with
           | Ok _ => 0
           | _ => 1
           end
       | _ => 1
       end.
Proof.
  unfold S3PolicySetPrompts.main.
  destruct (_ <? _); [reflexivity|].
  unfold bind at 1, log_info at 1, emit, S3PolicySetPrompts.at_terminal.
  unfold bind at 1.
  pose proof (get_lifecycle_input_never_exits stdin) as Hinput.
  destruct (S3PolicySetPrompts.get_lifecycle_input stdin)
    as [[[[days class]|e|c] stdin'] t0]; cbn in Hinput |- *;
    try reflexivity; [|now destruct (Hinput c)].
  unfold try_except, bind, S3PolicySetPrompts.process_buckets.
  pose proof (@process_buckets_never_exits W sdk profiles
                (S3PolicySetPrompts.lifecycle_config days class)
                (List.nth 1 argv EmptyString) w) as Hexit.
  destruct (S3.process_buckets _ _ _ _ w) as [[[[]|e|c] w1] t1];
    cbn in *; try reflexivity.
  now destruct (Hexit c).
Qed.

(** A script whose log file cannot be created ends at its module level,
    with the exception of the file handler; otherwise it goes on in the
    world in which the file is open. *)
Lemma basic_config_then W (sdk : aws W) A LOG_FILE_NAME (k : M W A) w :
  result_of ((S3.basic_config sdk LOG_FILE_NAME ;; k) w) =
  match file_handler sdk LOG_FILE_NAME w with
  | (inl e, _) => Raise e
  | (inr _, w0) => result_of (k w0)
  end.
Proof.
  unfold bind, S3.basic_config.
  destruct (file_handler sdk LOG_FILE_NAME w) as [[e|[]] w0];
    [reflexivity|].
  now destruct (k w0) as [[r w1] t1].
Qed.



(** A run of [s3_expire.py] in a directory in which its log file cannot
    be created: the script ends with status 1 before [main] is called, and
    nothing is logged. *)
Example unwritable_log_file_exits_one :
  let sdk := Scenarios.locked_logs
               [S3Expire.LOG_FILE_NAME "20240101_120000"]
               Examples.no_log_groups in
  let run := S3Expire.script sdk S3Expire.AWS_PROFILES "20240101_120000"
               ["s3_expire.py"; "buckets.csv"] tt in
  result_of run = Raise (OSError "Permission denied") /\
  events_of run = [] /\
  exit_status (result_of run) = 1 /\
  exit_status (result_of
    (S3Expire.main sdk S3Expire.AWS_PROFILES
       ["s3_expire.py"; "buckets.csv"] tt)) = 0.
Proof. cbv zeta. repeat split; reflexivity. Qed.


(** ** The order of processing *)

Section FollowsFacts.

Variable T : Type.
Variable eqb : T -> T -> bool.
Hypothesis eqb_refl : forall x, eqb x x = true.

Lemma skip_to_suffix tag scopes :
  exists skipped, scopes = skipped ++ skip_to eqb tag scopes.
Proof.
  induction scopes as [|s rest [skipped IH]]; cbn.
  - now exists [].
  - destruct (eqb tag s).
    + now exists [].
    + exists (s :: skipped). cbn. now f_equal.
Qed.

Lemma skip_to_app tag pre scopes :
  exists pre', skip_to eqb tag (pre ++ scopes) = pre' ++ skip_to eqb tag scopes.
Proof.
  induction pre as [|s pre [pre' IH]]; cbn.
  - now exists [].
  - destruct (eqb tag s).
    + destruct (skip_to_suffix tag scopes) as [skipped E].
      exists (s :: pre ++ skipped). cbn. f_equal.
      now rewrite <- app_assoc, <- E.
    + now exists pre'.
Qed.

(** Scopes put in front do no harm. *)
Lemma follows_skip pre scopes tags :
  follows eqb scopes tags = true -> follows eqb (pre ++ scopes) tags = true.
Proof.
  revert pre scopes. induction tags as [|tag tags IH]; intros pre scopes H;
    [reflexivity|].
  cbn in *. destruct (skip_to_app tag pre scopes) as [pre' ->].
  destruct (skip_to eqb tag scopes) as [|s remaining]; [discriminate|].
  destruct (pre' ++ s :: remaining) as [|s' remaining'] eqn:E.
  - now destruct pre'.
  - rewrite <- E. now apply IH.
Qed.

(** A block of the tag of the first scope is passed over. *)
Lemma follows_block s scopes block tags :
  Forall (eq s) block ->
  follows eqb (s :: scopes) (block ++ tags) = follows eqb (s :: scopes) tags.
Proof.
  induction 1 as [|tag block <- _ IH]; [reflexivity|].
  cbn [app follows skip_to]. now rewrite eqb_refl.
Qed.

Variable W : Type.
Variable tag_of : event -> list T.

Lemma untagged_tags t : Forall (untagged tag_of) t -> flat_map tag_of t = [].
Proof. induction 1 as [|e t He _ IH]; cbn; [|rewrite He]; auto. Qed.

Lemma tagged_tags s t : Forall (tagged tag_of s) t -> Forall (eq s) (flat_map tag_of t).
Proof.
  induction 1 as [|e t [He|He] _ IH]; cbn; [constructor| |]; rewrite He; cbn;
    auto.
Qed.

Lemma ordered_silent A scopes (m : M W A) :
  emits (untagged tag_of) m -> ordered eqb tag_of scopes m.
Proof.
  intros H w tail later Hlater. rewrite (untagged_tags (H w)).
  now apply follows_skip.
Qed.

Lemma ordered_block A s (m : M W A) :
  emits (tagged tag_of s) m -> ordered eqb tag_of [s] m.
Proof.
  intros H w tail later Hlater. cbn [app].
  rewrite (follows_block _ _ (tagged_tags (H w))).
  now apply (follows_skip [s]).
Qed.

Lemma ordered_bind A B s1 s2 (m : M W A) (k : A -> M W B) :
  ordered eqb tag_of s1 m -> (forall a, ordered eqb tag_of s2 (k a)) ->
  ordered eqb tag_of (s1 ++ s2) (bind m k).
Proof.
  intros Hm Hk w tail later Hlater. unfold bind.
  specialize (Hm w (s2 ++ tail)).
  destruct (m w) as [[[a|e|c] w1] t1]; cbn [events_of snd] in *;
    rewrite <- app_assoc;
    try (apply Hm; now apply follows_skip).
  specialize (Hk a w1 tail later Hlater).
  destruct (k a w1) as [[r w2] t2]. cbn [events_of snd] in *.
  rewrite flat_map_app, <- app_assoc. now apply Hm.
Qed.

Lemma ordered_after A B s (m : M W A) (k : A -> M W B) :
  emits (untagged tag_of) m -> (forall a, ordered eqb tag_of s (k a)) ->
  ordered eqb tag_of s (bind m k).
Proof.
  intros Hm Hk. apply (@ordered_bind A B [] s); [|exact Hk].
  now apply ordered_silent.
Qed.

Lemma ordered_before A B s (m : M W A) (k : A -> M W B) :
  ordered eqb tag_of s m -> (forall a, emits (untagged tag_of) (k a)) ->
  ordered eqb tag_of s (bind m k).
Proof.
  intros Hm Hk. rewrite <- (app_nil_r s).
  apply ordered_bind; [exact Hm|]. intros a. now apply ordered_silent.
Qed.

Lemma ordered_try_except A s (m : M W A) h :
  ordered eqb tag_of s m -> (forall e, emits (untagged tag_of) (h e)) ->
  ordered eqb tag_of s (try_except m h).
Proof.
  intros Hm Hh w tail later Hlater. unfold try_except.
  specialize (Hm w tail later Hlater).
  destruct (m w) as [[[a|e|c] w1] t1]; cbn [events_of snd] in *;
    try exact Hm.
  specialize (Hh e w1). destruct (h e w1) as [[r w2] t2].
  cbn [events_of snd] in *.
  now rewrite flat_map_app, (untagged_tags Hh), app_nil_r.
Qed.

Lemma ordered_for_each A (scopes_of : A -> list T) xs (body : A -> M W unit) :
  (forall x, ordered eqb tag_of (scopes_of x) (body x)) ->
  ordered eqb tag_of (flat_map scopes_of xs) (for_each xs body).
Proof.
  intros H. induction xs as [|x xs IH]; cbn [flat_map for_each].
  - apply ordered_silent, emits_ret.
  - apply ordered_bind; [apply H | intros _; exact IH].
Qed.

(** The tags of a whole run. *)
Lemma ordered_run A scopes (m : M W A) w :
  ordered eqb tag_of scopes m ->
  follows eqb scopes (flat_map tag_of (events_of (m w))) = true.
Proof.
  intros H. specialize (H w [] [] eq_refl). now rewrite !app_nil_r in H.
Qed.

End FollowsFacts.

Lemma scope_eqb_refl s : scope_eqb s s = true.
Proof. unfold scope_eqb. now rewrite !String.eqb_refl. Qed.

Lemma flat_map_singleton A B (f : A -> B) xs :
  flat_map (fun x => [f x]) xs = map f xs.
Proof. induction xs; cbn; congruence. Qed.

Section RetentionOrder.

Variable W : Type.
Variable sdk : aws W.
Variable regions : list string.
Variable for_log_group : string -> string -> log_group -> M W unit.

Hypothesis for_log_group_in_scope :
  forall region profile log_group,
    emits (tagged region_scope (profile, region))
      (for_log_group region profile log_group).

Local Abbreviation in_order := (ordered (W := W) scope_eqb region_scope).

Lemma for_region_in_order profile region :
  in_order [(profile, region)]
    (CloudWatch.for_region sdk for_log_group profile region).
Proof.
  apply ordered_block; [apply scope_eqb_refl|].
  unfold CloudWatch.for_region, CloudWatch.set_retention_for_log_groups.
  repeat emits_step; try (now left); try (now right).
  apply emits_for_each_page; [now right|].
  intros logGroups. apply emits_for_each. intros lg _.
  apply for_log_group_in_scope.
Qed.

Lemma on_profile_error_untagged logger profile e :
  emits (untagged region_scope)
    (CloudWatch.on_profile_error (W := W) logger profile e).
Proof.
  unfold CloudWatch.on_profile_error. repeat emits_step; reflexivity.
Qed.

Lemma for_profile_in_order logger profile :
  in_order (map (pair profile) regions)
    (CloudWatch.for_profile sdk regions for_log_group logger profile).
Proof.
  unfold CloudWatch.for_profile, CloudWatch.setup_logging.
  apply ordered_try_except; [|apply on_profile_error_untagged].
  apply ordered_after; [repeat emits_step; reflexivity|]. intros _.
  apply ordered_try_except; [|apply on_profile_error_untagged].
  apply ordered_after; [repeat emits_step; reflexivity|]. intros _.
  apply ordered_before; [|intros _; repeat emits_step; reflexivity].
  rewrite <- flat_map_singleton.
  apply ordered_for_each. intros region. apply for_region_in_order.
Qed.

Lemma script_in_order profiles w :
  follows scope_eqb (cross profiles regions)
    (flat_map region_scope
       (events_of (CloudWatch.script sdk profiles regions for_log_group w))) =
  true.
Proof.
  apply ordered_run. unfold CloudWatch.script, CloudWatch.process_log_groups.
  apply ordered_before; [|intros _; repeat emits_step; reflexivity].
  generalize false as logger.
  induction profiles as [|profile rest IH]; intros logger;
    cbn [CloudWatch.for_profiles].
  - apply ordered_silent, emits_ret.
  - unfold cross. cbn [flat_map]. apply ordered_bind.
    + apply for_profile_in_order.
    + intros logger'. apply IH.
Qed.

End RetentionOrder.

Lemma targets_cons row rows : targets (row :: rows) = targets [row] ++ targets rows.
Proof. unfold targets. cbn [flat_map]. now rewrite app_nil_r. Qed.

Section BucketOrder.

Variable W : Type.
Variable sdk : aws W.
Variable profiles : list string.
Variable lifecycle_config : string -> lifecycle_configuration.

Local Abbreviation in_order := (ordered (W := W) scope_eqb bucket_scope).

Lemma for_bucket_profile_in_order bucket profile :
  in_order [(bucket, profile)]
    (S3.for_profile sdk lifecycle_config bucket profile).
Proof.
  apply ordered_block; [apply scope_eqb_refl|].
  unfold S3.for_profile, S3.create_lifecycle_policy.
  repeat emits_step; try (now left); try (now right).
Qed.

Lemma for_rows_in_order rows :
  in_order (cross (targets rows) profiles)
    (for_each rows (S3.for_row sdk profiles lifecycle_config)).
Proof.
  replace (cross (targets rows) profiles)
    with (flat_map (fun row => cross (targets [row]) profiles) rows).
  - apply ordered_for_each. intros [|field row]; cbn.
    + apply ordered_silent, emits_raise.
    + destruct (is_empty (strip field)); cbn.
      * apply ordered_silent, emits_ret.
      * apply ordered_after; [repeat emits_step; reflexivity|]. intros _.
        rewrite app_nil_r, <- flat_map_singleton.
        apply ordered_for_each. intros profile.
        apply for_bucket_profile_in_order.
  - induction rows as [|row rows IH]; [reflexivity|].
    cbn [flat_map]. rewrite IH, (targets_cons row rows).
    unfold cross. now rewrite flat_map_app.
Qed.

Lemma process_buckets_in_order path rows w w0 :
  open_csv sdk path w = (inr rows, w0) ->
  follows scope_eqb (cross (targets rows) profiles)
    (flat_map bucket_scope
       (events_of (S3.process_buckets sdk profiles lifecycle_config path w))) =
  true.
Proof.
  intros Hopen.
  pose proof (@for_rows_in_order rows w0 [] [] eq_refl) as H.
  rewrite !app_nil_r in H.
  unfold S3.process_buckets, try_except, bind, invoke. rewrite Hopen.
  destruct (for_each rows _ w0) as [[[[]|e|c] w1] t1];
    cbn [events_of snd] in *; try exact H.
  destruct (is_FileNotFoundError e); cbn;
    now rewrite flat_map_app, app_nil_r.
Qed.

End BucketOrder.




(** * Further properties *)

(** ** Runs of [process_buckets] that end well *)

Section Completion.

Variable W : Type.

Lemma bind_ok A B (m : M W A) (k : A -> M W B) w b :
  result_of (bind m k w) = Ok b ->
  exists a w1 t1,
    m w = (Ok a, w1, t1) /\
    result_of (k a w1) = Ok b /\
    events_of (bind m k w) = t1 ++ events_of (k a w1).
Proof.
  unfold bind. destruct (m w) as [[[a|e|c] w1] t1]; try discriminate.
  intros H. exists a, w1, t1. split; [reflexivity|].
  destruct (k a w1) as [[r w2] t2]. auto.
Qed.

Lemma flat_map_map A B C (f : B -> list C) (g : A -> B) xs :
  flat_map f (map g xs) = flat_map (fun x => f (g x)) xs.
Proof. induction xs; cbn; congruence. Qed.

Lemma for_each_ok_calls A (calls_of : A -> list (call * reply)) xs
    (body : A -> M W unit) w :
  (forall x w, In x xs -> result_of (body x w) = Ok tt ->
               api_calls (events_of (body x w)) = calls_of x) ->
  result_of (for_each xs body w) = Ok tt ->
  api_calls (events_of (for_each xs body w)) = flat_map calls_of xs.
Proof.
  revert w. induction xs as [|x xs IH]; intros w Hbody Hok; [reflexivity|].
  cbn [for_each flat_map] in *.
  destruct (bind_ok _ _ _ Hok) as [[] [w1 [t1 [Hx [Hrest ->]]]]].
  rewrite api_calls_app. f_equal.
  - rewrite <- (Hbody x w); [now rewrite Hx | now left | now rewrite Hx].
  - apply IH; [|exact Hrest]. intros y w' Hy. apply Hbody. now right.
Qed.

Variable sdk : aws W.
Variable profiles : list string.
Variable lifecycle_config : string -> lifecycle_configuration.

Lemma for_profile_ok_calls bucket profile w :
  result_of (S3.for_profile sdk lifecycle_config bucket profile w) = Ok tt ->
  api_calls (events_of (S3.for_profile sdk lifecycle_config bucket profile w))
  = bucket_calls lifecycle_config (bucket, profile).
Proof.
  unfold S3.for_profile, S3.create_lifecycle_policy, try_except, bind,
    invoke, log_info, log_error, emit, raise, done.
  destruct (session sdk profile w) as [[e1|[]] w1]; [discriminate|].
  destruct (s3_client sdk profile w1) as [[e2|[]] w2]; [discriminate|].
  destruct (head_bucket sdk profile bucket w2) as [[e3|[]] w3].
  - destruct (is_ClientError e3); discriminate.
  - destruct (put_bucket_lifecycle_configuration sdk profile bucket _ w3)
      as [[e4|[]] w4]; [|reflexivity].
    destruct (is_ClientError e4) eqn:E; cbn; rewrite ?E; discriminate.
Qed.

Lemma for_row_ok_calls row w :
  result_of (S3.for_row sdk profiles lifecycle_config row w) = Ok tt ->
  row <> [] /\
  api_calls (events_of (S3.for_row sdk profiles lifecycle_config row w)) =
  flat_map (bucket_calls lifecycle_config) (cross (targets [row]) profiles).
Proof.
  destruct row as [|field row]; cbn; [discriminate|].
  intros Hok. split; [discriminate|].
  destruct (is_empty (strip field)); [reflexivity|].
  destruct (bind_ok _ _ _ Hok) as [[] [w1 [t1 [Hlog [Hrest ->]]]]].
  injection Hlog as <- <-.
  change (api_calls (events_of (for_each profiles
            (S3.for_profile sdk lifecycle_config (strip field)) w)) =
          flat_map (bucket_calls lifecycle_config)
            (map (pair (strip field)) profiles ++ [])).
  rewrite app_nil_r, flat_map_map.
  apply for_each_ok_calls; [|exact Hrest].
  intros profile w' _. apply for_profile_ok_calls.
Qed.

Lemma for_rows_ok_calls rows w :
  result_of (for_each rows (S3.for_row sdk profiles lifecycle_config) w) =
    Ok tt ->
  ~ In [] rows /\
  api_calls (events_of (for_each rows
                          (S3.for_row sdk profiles lifecycle_config) w)) =
  flat_map (bucket_calls lifecycle_config) (cross (targets rows) profiles).
Proof.
  revert w. induction rows as [|row rows IH]; intros w Hok.
  - split; [intros [] | reflexivity].
  - cbn [for_each] in *.
    destruct (bind_ok _ _ _ Hok) as [[] [w1 [t1 [Hrow [Hrest ->]]]]].
    destruct (IH _ Hrest) as [Hin Hcalls].
    assert (Hrow' : result_of (S3.for_row sdk profiles lifecycle_config row w)
                    = Ok tt) by now rewrite Hrow.
    destruct (for_row_ok_calls _ _ Hrow') as [Hne Hcalls'].
    rewrite Hrow in Hcalls'. cbn [events_of snd] in Hcalls'.
    split.
    + intros [E|E]; [now apply Hne | now apply Hin].
    + rewrite api_calls_app, Hcalls, Hcalls', (targets_cons row rows).
      unfold cross. now rewrite !flat_map_app.
Qed.

(** X1.  When [process_buckets] ends well, its calls are the opening of
    the file and then, for each bucket name of the file in order and each
    profile in order, the creation of the session and of the client, the
    existence check and the write of the policy of that bucket, all of
    which returned; and no row of the file was without fields. *)
Theorem completed_run_wrote_every_bucket path rows w w0 :
  open_csv sdk path w = (inr rows, w0) ->
  result_of (S3.process_buckets sdk profiles lifecycle_config path w) = Ok tt ->
  ~ In [] rows /\
  api_calls (events_of (S3.process_buckets sdk profiles lifecycle_config
                          path w)) =
  (OpenCsv path, ReturnedRows rows)
  :: flat_map (bucket_calls lifecycle_config) (cross (targets rows) profiles).
Proof.
  unfold S3.process_buckets, try_except, bind, invoke.
  intros ->.
  pose proof (for_rows_ok_calls rows w0) as H.
  destruct (for_each rows _ w0) as [[[[]|e|c] w1] t1];
    cbn [result_of events_of fst snd] in *.
  - intros _. destruct (H eq_refl) as [Hin Hcalls].
    split; [exact Hin|]. rewrite api_calls_app, Hcalls. reflexivity.
  - destruct (is_FileNotFoundError e); discriminate.
  - discriminate.
Qed.

(** The calls of the S3 scripts always return. *)
Hypothesis sessions_open :
  forall profile w, exists w', session sdk profile w = (inr tt, w').
Hypothesis clients_open :
  forall profile w, exists w', s3_client sdk profile w = (inr tt, w').
Hypothesis buckets_exist :
  forall profile bucket w,
    exists w', head_bucket sdk profile bucket w = (inr tt, w').
Hypothesis writes_accepted :
  forall profile bucket config w,
    exists w',
      put_bucket_lifecycle_configuration sdk profile bucket config w =
      (inr tt, w').

Lemma for_profile_succeeds bucket profile w :
  result_of (S3.for_profile sdk lifecycle_config bucket profile w) = Ok tt.
Proof.
  unfold S3.for_profile, S3.create_lifecycle_policy, try_except, bind,
    invoke, log_info, log_error, emit, raise, done.
  destruct (sessions_open profile w) as [w1 ->].
  destruct (clients_open profile w1) as [w2 ->].
  destruct (buckets_exist profile bucket w2) as [w3 ->].
  destruct (writes_accepted profile bucket (lifecycle_config bucket) w3)
    as [w4 ->].
  reflexivity.
Qed.

Lemma for_each_succeeds A (xs : list A) (body : A -> M W unit) w :
  (forall x w, In x xs -> result_of (body x w) = Ok tt) ->
  result_of (for_each xs body w) = Ok tt.
Proof.
  revert w. induction xs as [|x xs IH]; intros w H; [reflexivity|].
  cbn [for_each]. unfold bind.
  pose proof (H x w (or_introl eq_refl)) as Hx.
  destruct (body x w) as [[r w1] t1]. cbn in Hx. subst r.
  specialize (IH w1 (fun y w' Hy => H y w' (or_intror Hy))).
  destruct (for_each xs body w1) as [[r w2] t2]. exact IH.
Qed.

(** X2.  When every call returns and every row of the file has at least
    one field, [process_buckets] ends well. *)
Theorem process_buckets_succeeds path rows w w0 :
  open_csv sdk path w = (inr rows, w0) ->
  ~ In [] rows ->
  result_of (S3.process_buckets sdk profiles lifecycle_config path w) = Ok tt.
Proof.
  intros Hopen Hrows.
  unfold S3.process_buckets, try_except, bind, invoke. rewrite Hopen.
  assert (H : result_of (for_each rows
                           (S3.for_row sdk profiles lifecycle_config) w0)
              = Ok tt).
  { apply for_each_succeeds. intros [|field row] w' Hin; [contradiction|].
    cbn. destruct (is_empty (strip field)); [reflexivity|].
    unfold bind, log_info, emit.
    pose proof (for_each_succeeds profiles
                  (S3.for_profile sdk lifecycle_config (strip field)) w'
                  (fun p w'' _ => for_profile_succeeds (strip field) p w''))
      as Hp.
    destruct (for_each profiles _ w') as [[r w1] t1]. exact Hp. }
  destruct (for_each rows _ w0) as [[r w1] t1]. cbn in H. now subst r.
Qed.

End Completion.

Lemma completed_run_wrote_every_bucket_witness :
  let sdk := Examples.account Examples.rows_with_blank_line []
               Examples.no_log_groups in
  ~ In [] Examples.rows_with_blank_line /\
  api_calls (events_of (S3Expire.process_buckets sdk ["a"; "b"]
                          "buckets.csv" tt)) =
  (OpenCsv "buckets.csv", ReturnedRows Examples.rows_with_blank_line)
  :: flat_map (bucket_calls S3Expire.lifecycle_config)
       [("bucket-a", "a"); ("bucket-a", "b");
        ("bucket-b", "a"); ("bucket-b", "b")].
Proof.
  exact (@completed_run_wrote_every_bucket unit
           (Examples.account Examples.rows_with_blank_line []
              Examples.no_log_groups)
           ["a"; "b"] S3Expire.lifecycle_config "buckets.csv"
           Examples.rows_with_blank_line tt tt eq_refl eq_refl).
Defined.

Lemma process_buckets_succeeds_witness :
  result_of (S3Expire.process_buckets
               (Examples.account Examples.rows_with_blank_line []
                  Examples.no_log_groups)
               ["a"; "b"] "buckets.csv" tt) = Ok tt.
Proof.
  apply (@process_buckets_succeeds unit
           (Examples.account Examples.rows_with_blank_line []
              Examples.no_log_groups)
           ["a"; "b"] S3Expire.lifecycle_config) with
    (rows := Examples.rows_with_blank_line) (w0 := tt).
  - intros profile []. now exists tt.
  - intros profile []. now exists tt.
  - intros profile bucket []. now exists tt.
  - intros profile bucket config []. now exists tt.
  - reflexivity.
  - cbn. intros [H|[H|[H|[]]]]; discriminate.
Defined.

(** ** No call after a call that raised *)

Lemma unfailed_app cs1 cs2 :
  unfailed (cs1 ++ cs2) <-> unfailed cs1 /\ unfailed cs2.
Proof. apply Forall_app. Qed.

Lemma unfailed_removelast cs : unfailed cs -> unfailed (removelast cs).
Proof.
  induction 1 as [|c cs Hc Hcs IH]; [constructor|].
  cbn [removelast]. destruct cs; [constructor|]. now constructor.
Qed.

Lemma unfailed_removelast_app cs1 cs2 :
  unfailed cs1 -> unfailed (removelast cs2) ->
  unfailed (removelast (cs1 ++ cs2)).
Proof.
  intros H1 H2. destruct cs2 as [|c cs2].
  - rewrite app_nil_r. now apply unfailed_removelast.
  - rewrite removelast_app by discriminate. apply unfailed_app. now split.
Qed.

(** In calls that stop at the first failure, a call that raised is the
    last. *)
Lemma raised_is_last cs before c e after :
  unfailed (removelast cs) ->
  cs = before ++ (c, Raised e) :: after ->
  after = [].
Proof.
  intros H ->. destruct after as [|c' after]; [reflexivity|].
  exfalso.
  rewrite removelast_app in H by discriminate.
  apply unfailed_app in H. destruct H as [_ H].
  cbn [removelast] in H. inversion H as [|? ? Hc _]. discriminate Hc.
Qed.

Lemma raised_is_failed cs before c e after :
  unfailed cs -> cs <> before ++ (c, Raised e) :: after.
Proof.
  intros H ->. apply unfailed_app in H. destruct H as [_ H].
  inversion H as [|? ? Hc _]. discriminate Hc.
Qed.

Section FailFast.

Variable W : Type.

Lemma fail_fast_quiet A (m : M W A) :
  (forall w, api_calls (events_of (m w)) = []) -> fail_fast m.
Proof. intros H w. rewrite H. split; constructor. Qed.

Lemma fail_fast_invoke A c shown (op : operation W A) :
  (forall a, is_raised (shown a) = false) ->
  fail_fast (invoke c shown op).
Proof.
  intros Hshown w. unfold invoke. destruct (op w) as [[e|a] w']; cbn.
  - split; [constructor | discriminate].
  - split; [constructor | intros _ _; repeat constructor].
    apply Hshown.
Qed.

Lemma fail_fast_bind A B (m : M W A) (k : A -> M W B) :
  fail_fast m -> (forall a, fail_fast (k a)) -> fail_fast (bind m k).
Proof.
  intros Hm Hk w. unfold bind. destruct (Hm w) as [Hlast Hok].
  destruct (m w) as [[[a|e|c] w1] t1]; cbn [result_of events_of fst snd] in *;
    try (split; [exact Hlast | discriminate]).
  destruct (Hk a w1) as [Hlast' Hok'].
  destruct (k a w1) as [[r w2] t2]. cbn [result_of events_of fst snd] in *.
  rewrite api_calls_app. split.
  - apply unfailed_removelast_app; eauto.
  - intros b Hb. apply unfailed_app. eauto.
Qed.

(** A handler that makes no call and does not end well. *)
Lemma fail_fast_try_except A (m : M W A) h :
  fail_fast m ->
  (forall e w, api_calls (events_of (h e w)) = [] /\
               forall a, result_of (h e w) <> Ok a) ->
  fail_fast (try_except m h).
Proof.
  intros Hm Hh w. unfold try_except. destruct (Hm w) as [Hlast Hok].
  destruct (m w) as [[[a|e|c] w1] t1]; cbn [result_of events_of fst snd] in *;
    try (split; [exact Hlast | assumption || discriminate]).
  destruct (Hh e w1) as [Hcalls Hres].
  destruct (h e w1) as [[r w2] t2]. cbn [result_of events_of fst snd] in *.
  rewrite api_calls_app, Hcalls, app_nil_r. split; [exact Hlast|].
  intros a Ha. now destruct (Hres a).
Qed.

Lemma fail_fast_for_each A (xs : list A) (body : A -> M W unit) :
  (forall x, fail_fast (body x)) -> fail_fast (for_each xs body).
Proof.
  intros H. induction xs as [|x xs IH]; cbn [for_each].
  - now apply fail_fast_quiet.
  - apply fail_fast_bind; [apply H | intros _; exact IH].
Qed.

Variable sdk : aws W.
Variable profiles : list string.
Variable lifecycle_config : string -> lifecycle_configuration.

Lemma process_buckets_fail_fast path :
  fail_fast (S3.process_buckets sdk profiles lifecycle_config path).
Proof.
  unfold S3.process_buckets.
  apply fail_fast_try_except.
  - apply fail_fast_bind; [now apply fail_fast_invoke|]. intros rows.
    apply fail_fast_for_each. intros [|field row]; cbn.
    + now apply fail_fast_quiet.
    + destruct (is_empty (strip field)); [now apply fail_fast_quiet|].
      apply fail_fast_bind; [now apply fail_fast_quiet|]. intros _.
      apply fail_fast_for_each. intros profile. unfold S3.for_profile.
      repeat (apply fail_fast_bind;
              [now apply fail_fast_invoke || now apply fail_fast_quiet|];
              intros _).
      apply fail_fast_try_except.
      * apply fail_fast_bind; [now apply fail_fast_invoke|]. intros _.
        unfold S3.create_lifecycle_policy. apply fail_fast_try_except.
        -- apply fail_fast_bind; [now apply fail_fast_invoke|]. intros _.
           now apply fail_fast_quiet.
        -- intros e w. destruct (is_ClientError e); cbn;
             (split; [reflexivity | discriminate]).
      * intros e w. destruct (is_ClientError e); cbn;
          (split; [reflexivity | discriminate]).
  - intros e w. destruct (is_FileNotFoundError e); cbn;
      (split; [reflexivity | discriminate]).
Qed.

End FailFast.

(** X3.  [process_buckets] stops at the first call that raises, whichever
    call it is: in every run, a call that raised is the last call of the
    run, and the run then ends with an exception. *)
Theorem no_call_after_a_failure W (sdk : aws W) profiles lifecycle_config
    path w before c e after :
  api_calls (events_of (S3.process_buckets sdk profiles lifecycle_config
                          path w)) =
    before ++ (c, Raised e) :: after ->
  after = [] /\
  exists e', result_of (S3.process_buckets sdk profiles lifecycle_config
                          path w) = Raise e'.
Proof.
  intros E.
  destruct (process_buckets_fail_fast sdk profiles lifecycle_config path w)
    as [Hlast Hok].
  split; [eapply raised_is_last; [exact Hlast | exact E]|].
  pose proof (@process_buckets_never_exits W sdk profiles lifecycle_config
                path w) as Hexit.
  destruct (result_of _) as [[]|e'|code].
  - exfalso. eapply raised_is_failed; [exact (Hok tt eq_refl) | exact E].
  - now exists e'.
  - now destruct (Hexit code).
Qed.

Lemma no_call_after_a_failure_witness :
  @nil (call * reply) = [] /\
  exists e',
    result_of (S3Expire.process_buckets
                 (Scenarios.read_only [["bucket-a"]; ["bucket-b"]])
                 S3Expire.AWS_PROFILES "buckets.csv" tt) = Raise e'.
Proof.
  apply (@no_call_after_a_failure unit
           (Scenarios.read_only [["bucket-a"]; ["bucket-b"]])
           S3Expire.AWS_PROFILES S3Expire.lifecycle_config "buckets.csv" tt
           [(OpenCsv "buckets.csv", ReturnedRows [["bucket-a"]; ["bucket-b"]]);
            (Session "accountid", Returned); (S3Client "accountid", Returned);
            (HeadBucket "accountid" "bucket-a", Returned)]
           (PutBucketLifecycleConfiguration "accountid" "bucket-a"
              (S3Expire.lifecycle_config "bucket-a"))
           (ClientError "AccessDenied") []).
  reflexivity.
Defined.

(** ** How the S3 scripts report errors *)

(** X4.  A write that the service refuses is reported as a bucket that
    does not exist.  When the session, the client and the existence check
    succeed and [put_bucket_lifecycle_configuration] raises [e], the work
    on the bucket ends there; if [e] is a [ClientError] it is logged
    twice, as a policy error and as an inaccessible bucket, and the
    exception raised is "Bucket ... is not accessible or doesn't exist.";
    otherwise [e] itself is raised and nothing is logged. *)
Theorem refused_write_is_reported_as_missing_bucket W (sdk : aws W)
    lifecycle_config bucket profile e w w1 w2 w3 w4 :
  session sdk profile w = (inr tt, w1) ->
  s3_client sdk profile w1 = (inr tt, w2) ->
  head_bucket sdk profile bucket w2 = (inr tt, w3) ->
  put_bucket_lifecycle_configuration sdk profile bucket
    (lifecycle_config bucket) w3 = (inl e, w4) ->
  S3.for_profile sdk lifecycle_config bucket profile w =
  (Raise (inaccessible bucket e), w4,
   [Api (Session profile) Returned;
    Api (S3Client profile) Returned;
    LogInfo (MsgUsingProfile profile);
    Api (HeadBucket profile bucket) Returned;
    Api (PutBucketLifecycleConfiguration profile bucket
           (lifecycle_config bucket)) (Raised e)] ++
   (if is_ClientError e
    then [LogError (MsgPolicyError profile bucket e);
          LogError (MsgBucketInaccessible profile bucket e)]
    else [])).
Proof.
  intros Hsession Hclient Hhead Hput.
  unfold S3.for_profile, S3.create_lifecycle_policy, try_except, bind,
    invoke, log_info, log_error, emit, raise, done, inaccessible.
  rewrite Hsession, Hclient, Hhead, Hput.
  destruct (is_ClientError e) eqn:E; cbn; rewrite ?E; reflexivity.
Qed.

Lemma refused_write_is_reported_as_missing_bucket_witness :
  S3.for_profile (Scenarios.read_only [["bucket-a"]])
    S3Expire.lifecycle_config "bucket-a" "accountid" tt =
  (Raise (Exception "Bucket bucket-a is not accessible or doesn't exist."),
   tt,
   [Api (Session "accountid") Returned;
    Api (S3Client "accountid") Returned;
    LogInfo (MsgUsingProfile "accountid");
    Api (HeadBucket "accountid" "bucket-a") Returned;
    Api (PutBucketLifecycleConfiguration "accountid" "bucket-a"
           (S3Expire.lifecycle_config "bucket-a"))
        (Raised (ClientError "AccessDenied"));
    LogError (MsgPolicyError "accountid" "bucket-a"
                (ClientError "AccessDenied"));
    LogError (MsgBucketInaccessible "accountid" "bucket-a"
                (ClientError "AccessDenied"))]).
Proof.
  exact (@refused_write_is_reported_as_missing_bucket unit
           (Scenarios.read_only [["bucket-a"]]) S3Expire.lifecycle_config
           "bucket-a" "accountid" (ClientError "AccessDenied") tt tt tt tt tt
           eq_refl eq_refl eq_refl eq_refl).
Defined.

Lemma process_buckets_logs_what_it_raises W (sdk : aws W) profiles
    lifecycle_config path w e :
  result_of (S3.process_buckets sdk profiles lifecycle_config path w) =
    Raise e ->
  exists t,
    events_of (S3.process_buckets sdk profiles lifecycle_config path w) =
    t ++ [LogError (last_record path e)].
Proof.
  unfold S3.process_buckets, try_except, last_record.
  match goal with
  | |- context [match ?m w with _ => _ end] =>
      destruct (m w) as [[[[]|e0|c] w1] t1]
  end; cbn; try discriminate.
  destruct (is_FileNotFoundError e0) eqn:E; cbn; intros [= <-];
    rewrite E; now exists t1.
Qed.

(** The run of [main] in terms of the run of [process_buckets]. *)
Lemma main_run W (sdk : aws W) profiles lifecycle_config argv w :
  S3.main sdk profiles lifecycle_config argv w =
  if Z.of_nat (List.length argv) <? 2
  then (Exit 1, w, [LogError MsgUsage])
  else
    match S3.process_buckets sdk profiles lifecycle_config
            (List.nth 1 argv EmptyString) w with
    | (Ok _, w1, t1) =>
        (Ok tt, w1, LogInfo MsgStarting :: t1 ++ [LogInfo MsgCompleted])
    | (Raise e, w1, t1) =>
        (Exit 1, w1, LogInfo MsgStarting :: t1 ++ [LogError (MsgTerminated e)])
    | (Exit code, w1, t1) => (Exit code, w1, LogInfo MsgStarting :: t1)
    end.
Proof.
  unfold S3.main. destruct (_ <? _); [reflexivity|].
  unfold bind, try_except, log_info, log_error, emit, sys_exit.
  now destruct (S3.process_buckets _ _ _ _ w) as [[[[]|e|c] w1] t1].
Qed.

(** X5.  [main] of [s3_expire.py] and [s3_glacier_expire.py] lets no
    exception escape.  It returns after the record of completion, or it
    exits with status 1 after an error record: the usage message when the
    path is missing, and otherwise the record of the exception that
    [process_buckets] raised, which [process_buckets] had logged itself
    just before. *)
Theorem main_ends_in_a_record W (sdk : aws W) profiles lifecycle_config
    argv w :
  let run := S3.main sdk profiles lifecycle_config argv w in
  let path := List.nth 1 argv EmptyString in
  match result_of run with
  | Ok _ => exists t, events_of run = t ++ [LogInfo MsgCompleted]
  | Exit code =>
      code = 1 /\
      (events_of run = [LogError MsgUsage] \/
       exists t e,
         result_of (S3.process_buckets sdk profiles lifecycle_config path w)
           = Raise e /\
         events_of run =
           t ++ [LogError (last_record path e); LogError (MsgTerminated e)])
  | Raise _ => False
  end.
Proof.
  cbv zeta. rewrite main_run.
  destruct (_ <? _); [cbn; auto|].
  pose proof (@process_buckets_never_exits W sdk profiles lifecycle_config
                (List.nth 1 argv EmptyString) w) as Hexit.
  pose proof (@process_buckets_logs_what_it_raises W sdk profiles
                lifecycle_config (List.nth 1 argv EmptyString) w) as Hlog.
  destruct (S3.process_buckets sdk profiles lifecycle_config
              (List.nth 1 argv EmptyString) w) as [[[[]|e|c] w1] t1];
    cbn [result_of events_of fst snd] in *.
  - exists (LogInfo MsgStarting :: t1). reflexivity.
  - split; [reflexivity|]. right.
    destruct (Hlog e eq_refl) as [t ->].
    exists (LogInfo MsgStarting :: t), e. split; [reflexivity|].
    cbn. now rewrite <- app_assoc.
  - now destruct (Hexit c).
Qed.

(** X6.  When the CSV file cannot be opened, no call to AWS is made:
    [process_buckets] logs that the file was not found, or for another
    error that it is unexpected, and raises the error; [main] logs it
    again and exits with status 1. *)
Theorem unreadable_file_stops_the_run W (sdk : aws W) profiles
    lifecycle_config argv e w w0 :
  let path := List.nth 1 argv EmptyString in
  (2 <= List.length argv)%nat ->
  open_csv sdk path w = (inl e, w0) ->
  S3.process_buckets sdk profiles lifecycle_config path w =
    (Raise e, w0,
     [Api (OpenCsv path) (Raised e); LogError (last_record path e)]) /\
  S3.main sdk profiles lifecycle_config argv w =
    (Exit 1, w0,
     [LogInfo MsgStarting;
      Api (OpenCsv path) (Raised e);
      LogError (last_record path e);
      LogError (MsgTerminated e)]).
Proof.
  intros path Hargv Hopen.
  assert (Hrun : S3.process_buckets sdk profiles lifecycle_config path w =
                 (Raise e, w0,
                  [Api (OpenCsv path) (Raised e);
                   LogError (last_record path e)])).
  { unfold S3.process_buckets, try_except, bind, invoke, last_record.
    rewrite Hopen. now destruct (is_FileNotFoundError e). }
  split; [exact Hrun|].
  rewrite main_run.
  destruct (Z.ltb_spec (Z.of_nat (List.length argv)) 2) as [H|_]; [lia|].
  fold path. rewrite Hrun. reflexivity.
Qed.

Lemma unreadable_file_stops_the_run_witness :
  S3Expire.main Scenarios.no_file S3Expire.AWS_PROFILES
    ["s3_expire.py"; "buckets.csv"] tt =
  (Exit 1, tt,
   [LogInfo MsgStarting;
    Api (OpenCsv "buckets.csv") (Raised (FileNotFoundError "buckets.csv"));
    LogError (MsgCsvNotFound "buckets.csv");
    LogError (MsgTerminated (FileNotFoundError "buckets.csv"))]).
Proof.
  refine (proj2 (@unreadable_file_stops_the_run unit Scenarios.no_file
                   S3Expire.AWS_PROFILES S3Expire.lifecycle_config
                   ["s3_expire.py"; "buckets.csv"]
                   (FileNotFoundError "buckets.csv") tt tt _ eq_refl)).
  cbn. lia.
Defined.

(** ** Bucket names *)

Lemma lstrip_head s :
  match lstrip s with
  | EmptyString => True
  | String c _ => is_space c = false
  end.
Proof.
  induction s as [|c s IH]; cbn; [exact I|].
  destruct (is_space c) eqn:E; [exact IH | exact E].
Qed.

Lemma rstrip_cons c s :
  is_space c = false -> rstrip (String c s) = String c (rstrip s).
Proof. intros E. cbn. rewrite E. now destruct (rstrip s). Qed.

Lemma rstrip_rstrip s : rstrip (rstrip s) = rstrip s.
Proof.
  induction s as [|c s IH]; [reflexivity|].
  cbn [rstrip]. destruct (rstrip s) as [|c' kept] eqn:E.
  - destruct (is_space c) eqn:Ec; [reflexivity|]. cbn. now rewrite Ec.
  - cbn [rstrip]. cbn [rstrip] in IH. now rewrite IH.
Qed.

(** [s.strip().strip() == s.strip()] *)
Lemma strip_strip s : strip (strip s) = strip s.
Proof.
  unfold strip. pose proof (lstrip_head s) as H.
  destruct (lstrip s) as [|c t]; [reflexivity|].
  rewrite (@rstrip_cons c t H). cbn [lstrip]. rewrite H.
  rewrite <- (@rstrip_cons c t H). apply rstrip_rstrip.
Qed.

(** [s.strip() == ''] exactly when [s] is made of white space. *)
Lemma strip_empty s : is_empty (strip s) = all_space s.
Proof.
  unfold strip. induction s as [|c s IH]; [reflexivity|].
  cbn [lstrip all_space]. destruct (is_space c) eqn:E; [exact IH|].
  now rewrite (@rstrip_cons c s E).
Qed.

(** X7.  Every bucket name that [process_buckets] gives to [head_bucket]
    or [put_bucket_lifecycle_configuration] is a first field of the file
    with the white space around it removed: it is not empty and [strip]
    leaves it as it is. *)
Theorem buckets_are_named_by_stripped_fields W (sdk : aws W) profiles
    lifecycle_config path :
  emits names_stripped_bucket
    (S3.process_buckets sdk profiles lifecycle_config path).
Proof.
  unfold S3.process_buckets.
  apply emits_try_except; [|intros e; repeat emits_step; exact I].
  apply emits_bind; [apply emits_invoke; intros r; exact I|]. intros rows.
  apply emits_for_each. intros [|field row] _; [apply emits_raise|].
  cbn. destruct (is_empty (strip field)) eqn:E; [apply emits_ret|].
  assert (Hname : strip field <> EmptyString /\
                  strip (strip field) = strip field).
  { split; [|apply strip_strip]. intros H. now rewrite H in E. }
  unfold S3.for_profile, S3.create_lifecycle_policy.
  repeat emits_step; cbn; auto.
Qed.

Section BlankRows.

Variable W : Type.

Lemma for_each_concat A (xs ys : list A) (body : A -> M W unit) w :
  for_each (xs ++ ys) body w =
  bind (for_each xs body) (fun _ => for_each ys body) w.
Proof.
  revert w. induction xs as [|x xs IH]; intros w; cbn [app for_each].
  - unfold bind, ret. now destruct (for_each ys body w) as [[r w1] t1].
  - unfold bind.
    destruct (body x w) as [[[[]|e|c] w1] t1]; try reflexivity.
    rewrite IH. unfold bind.
    destruct (for_each xs body w1) as [[[[]|e|c] w2] t2]; try reflexivity.
    destruct (for_each ys body w2) as [[r w3] t3].
    now rewrite app_assoc.
Qed.

End BlankRows.

(** X8.  A row whose first field is made of white space only is passed
    over, whatever its other fields: the run of the loop over the rows is
    the same with and without it. *)
Theorem blank_rows_leave_no_trace W (sdk : aws W) profiles lifecycle_config
    before field others after w :
  all_space field = true ->
  for_each (before ++ (field :: others) :: after)
    (S3.for_row sdk profiles lifecycle_config) w =
  for_each (before ++ after) (S3.for_row sdk profiles lifecycle_config) w.
Proof.
  intros Hblank. rewrite !for_each_concat. unfold bind.
  destruct (for_each before _ w) as [[[[]|e|c] w1] t1]; try reflexivity.
  cbn [for_each]. unfold bind, S3.for_row at 1.
  rewrite strip_empty, Hblank. cbn.
  now destruct (for_each after _ w1) as [[r w2] t2].
Qed.

Lemma blank_rows_leave_no_trace_witness :
  let sdk := Examples.account [] [] Examples.no_log_groups in
  for_each Examples.rows_with_blank_line
    (S3.for_row sdk S3Expire.AWS_PROFILES S3Expire.lifecycle_config) tt =
  for_each [["bucket-a"]; [" bucket-b "]]
    (S3.for_row sdk S3Expire.AWS_PROFILES S3Expire.lifecycle_config) tt.
Proof.
  exact (@blank_rows_leave_no_trace unit
           (Examples.account [] [] Examples.no_log_groups)
           S3Expire.AWS_PROFILES S3Expire.lifecycle_config
           [["bucket-a"]] "   " [] [[" bucket-b "]] tt eq_refl).
Defined.

(** ** Failures within a region *)

Section RegionFailures.

Variable W : Type.

Lemma last_call_quiet A (m : M W A) :
  (forall w, api_calls (events_of (m w)) = [] /\
             exists a, result_of (m w) = Ok a) ->
  raises_its_last_call m.
Proof.
  intros H w. destruct (H w) as [Hcalls [a Hres]].
  rewrite Hres, Hcalls. constructor.
Qed.

Lemma last_call_invoke A c shown (op : operation W A) :
  (forall a, is_raised (shown a) = false) ->
  raises_its_last_call (invoke c shown op).
Proof.
  intros Hshown w. unfold invoke. destruct (op w) as [[e|a] w']; cbn.
  - exists [], c. split; [reflexivity | constructor].
  - repeat constructor. apply Hshown.
Qed.

Lemma last_call_bind A B (m : M W A) (k : A -> M W B) :
  raises_its_last_call m -> (forall a, raises_its_last_call (k a)) ->
  raises_its_last_call (bind m k).
Proof.
  intros Hm Hk w. unfold bind. specialize (Hm w).
  destruct (m w) as [[[a|e|c] w1] t1]; cbn [result_of events_of fst snd] in *;
    try exact Hm.
  specialize (Hk a w1).
  destruct (k a w1) as [[[b|e|c] w2] t2];
    cbn [result_of events_of fst snd] in *; rewrite ?api_calls_app.
  - apply unfailed_app. now split.
  - destruct Hk as [before [c [-> Hbefore]]].
    exists (api_calls t1 ++ before), c. rewrite app_assoc.
    split; [reflexivity|]. apply unfailed_app. now split.
  - exact Hk.
Qed.

Lemma last_call_for_each A (xs : list A) (body : A -> M W unit) :
  (forall x, raises_its_last_call (body x)) ->
  raises_its_last_call (for_each xs body).
Proof.
  intros H. induction xs as [|x xs IH]; cbn [for_each].
  - intros w. constructor.
  - apply last_call_bind; [apply H | intros _; exact IH].
Qed.

Lemma last_call_for_each_page profile region (pages : page_stream W) body :
  (forall logGroups, raises_its_last_call (body logGroups)) ->
  raises_its_last_call (for_each_page profile region pages body).
Proof.
  intros Hbody. revert pages. fix IH 1. intros [next] w.
  rewrite for_each_page_eq. destruct (next w) as [|w' e|w' logGroups rest].
  - constructor.
  - exists [], (DescribeLogGroups profile region).
    split; [reflexivity | constructor].
  - revert w'. apply last_call_bind.
    + intros w'. repeat constructor.
    + intros _. apply last_call_bind; [apply Hbody|]. intros _. apply IH.
Qed.

(** A handler that logs and raises the exception again. *)
Lemma last_call_reraise A (m : M W A) h :
  raises_its_last_call m ->
  (forall e w, result_of (h e w) = Raise e /\
               api_calls (events_of (h e w)) = []) ->
  raises_its_last_call (try_except m h).
Proof.
  intros Hm Hh w. unfold try_except. specialize (Hm w).
  destruct (m w) as [[[a|e|c] w1] t1]; cbn [result_of events_of fst snd] in *;
    try exact Hm.
  destruct (Hh e w1) as [Hres Hcalls].
  destruct (h e w1) as [[r w2] t2]. cbn [result_of events_of fst snd] in *.
  subst r. now rewrite api_calls_app, Hcalls, app_nil_r.
Qed.

Variable sdk : aws W.
Variable for_log_group : string -> string -> log_group -> M W unit.

Hypothesis for_log_group_raises_its_last_call :
  forall region profile log_group,
    raises_its_last_call (for_log_group region profile log_group).

Lemma region_raises_its_last_call region profile :
  raises_its_last_call
    (CloudWatch.set_retention_for_log_groups sdk for_log_group region profile).
Proof.
  unfold CloudWatch.set_retention_for_log_groups.
  apply last_call_reraise; [|intros e w; split; reflexivity].
  apply last_call_bind; [now apply last_call_invoke|]. intros _.
  apply last_call_bind; [now apply last_call_invoke|]. intros _.
  apply last_call_for_each_page. intros logGroups.
  apply last_call_for_each. intros lg.
  apply for_log_group_raises_its_last_call.
Qed.

End RegionFailures.

(** X9.  In both CloudWatch scripts, [set_retention_for_log_groups] ends
    well exactly when none of its calls raised; otherwise the call that
    raised is its last call, the only one that raised, and the exception
    that [set_retention_for_log_groups] raises is the exception of that
    call, unchanged. *)
Theorem region_raises_the_error_of_its_last_call W (sdk : aws W)
    region profile :
  raises_its_last_call
    (CloudWatchAll.set_retention_for_log_groups sdk region profile) /\
  forall s,
    raises_its_last_call
      (CloudWatchTarget.set_retention_for_log_groups sdk s region profile).
Proof.
  split; [|intros s]; apply region_raises_its_last_call;
    intros r p lg.
  - unfold CloudWatchAll.for_log_group.
    apply last_call_bind; [|intros _; now apply last_call_invoke].
    apply last_call_quiet. intros w. split; [reflexivity | now exists tt].
  - unfold CloudWatchTarget.for_log_group.
    destruct (CloudWatchTarget.retention_is_target s lg).
    + apply last_call_bind; [|intros _; now apply last_call_invoke].
      apply last_call_quiet. intros w. split; [reflexivity | now exists tt].
    + apply last_call_quiet. intros w. split; [reflexivity | now exists tt].
Qed.

(** ** The writes of a region *)

Lemma listed_app t1 t2 : listed (t1 ++ t2) = listed t1 ++ listed t2.
Proof. apply flat_map_app. Qed.

Lemma retention_puts_app t1 t2 :
  retention_puts (t1 ++ t2) = retention_puts t1 ++ retention_puts t2.
Proof. apply flat_map_app. Qed.

Lemma listed_page profile region page :
  listed [Api (DescribeLogGroups profile region) (ReturnedPage page)] = page.
Proof. apply app_nil_r. Qed.

Lemma retention_puts_page profile region r :
  retention_puts [Api (DescribeLogGroups profile region) r] = [].
Proof. reflexivity. Qed.

Section RegionWrites.

Variable W : Type.
Variable sdk : aws W.
Variable for_log_group : string -> string -> log_group -> M W unit.

(** The writes that the loop body makes for a log group. *)
Variable writes : string -> string -> log_group ->
                  list (string * string * string * Z).

Hypothesis for_log_group_writes :
  forall region profile log_group w,
    retention_puts (events_of (for_log_group region profile log_group w)) =
      writes region profile log_group /\
    listed (events_of (for_log_group region profile log_group w)) = [].

Lemma page_writes region profile page w :
  let run := for_each page (for_log_group region profile) w in
  exists done rest,
    page = done ++ rest /\
    retention_puts (events_of run) = flat_map (writes region profile) done /\
    listed (events_of run) = [] /\
    (result_of run = Ok tt -> rest = []).
Proof.
  cbv zeta. revert w. induction page as [|lg page IH]; intros w.
  - exists [], []. repeat split.
  - cbn [for_each]. unfold bind.
    destruct (for_log_group_writes region profile lg w) as [Hputs Hlisted].
    destruct (for_log_group region profile lg w) as [[[[]|e|c] w1] t1];
      cbn [result_of events_of fst snd] in *.
    + destruct (IH w1) as [done [rest [-> [Hputs' [Hlisted' Hok]]]]].
      destruct (for_each _ _ w1) as [[r w2] t2].
      cbn [result_of events_of fst snd] in *.
      exists (lg :: done), rest.
      rewrite retention_puts_app, listed_app, Hputs, Hputs', Hlisted,
        Hlisted'.
      repeat split; auto.
    + exists [lg], page. cbn. rewrite app_nil_r. repeat split; auto.
      discriminate.
    + exists [lg], page. cbn. rewrite app_nil_r. repeat split; auto.
      discriminate.
Qed.

Lemma stream_writes region profile (pages : page_stream W) w :
  let run := for_each_page profile region pages
               (fun logGroups =>
                  for_each logGroups (for_log_group region profile)) w in
  exists done rest,
    listed (events_of run) = done ++ rest /\
    retention_puts (events_of run) = flat_map (writes region profile) done /\
    (result_of run = Ok tt -> rest = []).
Proof.
  cbv zeta. revert pages w. fix IH 1. intros [next] w.
  rewrite for_each_page_eq. destruct (next w) as [|w' e|w' page rest_pages].
  - exists [], []. repeat split.
  - exists [], []. repeat split.
  - unfold bind at 1, emit. unfold bind.
    destruct (page_writes region profile page w')
      as [done [rest [Hpage [Hputs [Hlisted Hok]]]]].
    destruct (for_each page _ w') as [[[[]|e|c] w1] t1];
      cbn [result_of events_of fst snd] in *.
    + rewrite (Hok eq_refl), app_nil_r in Hpage. subst done.
      destruct (IH rest_pages w1) as [done' [rest' [Hl' [Hp' Hok']]]].
      destruct (for_each_page _ _ rest_pages _ w1) as [[r w2] t2].
      cbn [result_of events_of fst snd] in *.
      exists (page ++ done'), rest'.
      rewrite !listed_app, !retention_puts_app, listed_page,
        retention_puts_page, Hlisted, Hputs, Hl', Hp'.
      cbn [app]. rewrite flat_map_app, app_assoc. repeat split; auto.
    + exists done, rest.
      rewrite !listed_app, !retention_puts_app, listed_page,
        retention_puts_page, Hlisted, app_nil_r.
      repeat split; auto; discriminate.
    + exists done, rest.
      rewrite !listed_app, !retention_puts_app, listed_page,
        retention_puts_page, Hlisted, app_nil_r.
      repeat split; auto; discriminate.
Qed.

Lemma region_writes region profile w :
  let run := CloudWatch.set_retention_for_log_groups sdk for_log_group
               region profile w in
  exists done rest,
    listed (events_of run) = done ++ rest /\
    retention_puts (events_of run) = flat_map (writes region profile) done /\
    (result_of run = Ok tt -> rest = []).
Proof.
  cbv zeta.
  unfold CloudWatch.set_retention_for_log_groups, try_except, bind, invoke,
    log_error, emit, raise.
  destruct (session sdk profile w) as [[e1|[]] w1];
    [exists [], []; repeat split; discriminate|].
  destruct (logs_client sdk profile region w1) as [[e2|[]] w2];
    [exists [], []; repeat split; discriminate|].
  destruct (stream_writes region profile
              (describe_log_groups sdk profile region) w2)
    as [done [rest [Hl [Hp Hok]]]].
  destruct (for_each_page _ _ _ _ w2) as [[[[]|e|c] w3] t3];
    cbn [result_of events_of fst snd] in *;
    exists done, rest;
    rewrite ?listed_app, ?retention_puts_app;
    remember (listed t3) as L; remember (retention_puts t3) as P;
    cbn; rewrite ?app_nil_r; subst L P;
    (split; [exact Hl | split; [exact Hp | auto; discriminate]]).
Qed.

End RegionWrites.

Lemma flat_map_filter A B (keep : A -> bool) (f : A -> B) xs :
  flat_map (fun x => if keep x then [f x] else []) xs = map f (filter keep xs).
Proof.
  induction xs as [|x xs IH]; [reflexivity|].
  cbn. destruct (keep x); cbn; now rewrite IH.
Qed.

(** X10.  In a region, the unconditional script writes the retention of
    the log groups in the order in which the pages list them, each with
    [RETENTION_DAYS], without passing over any: its writes are those of an
    initial part of the listed groups (the last of them may have raised),
    and of all the listed groups when the region ends well. *)
Theorem every_listed_group_is_written W (sdk : aws W) region profile w :
  let run := CloudWatchAll.set_retention_for_log_groups sdk region profile w in
  exists done rest,
    listed (events_of run) = done ++ rest /\
    retention_puts (events_of run) =
      map (fun log_group =>
             (profile, region, logGroupName log_group,
              CloudWatchAll.RETENTION_DAYS)) done /\
    (result_of run = Ok tt -> rest = []).
Proof.
  cbv zeta.
  destruct (@region_writes W sdk (CloudWatchAll.for_log_group sdk)
              (fun region profile log_group =>
                 [(profile, region, logGroupName log_group,
                   CloudWatchAll.RETENTION_DAYS)]))
    with (region := region) (profile := profile) (w := w)
    as [done [rest [Hl [Hp Hok]]]].
  - intros r p lg w'. unfold CloudWatchAll.for_log_group, bind, log_info,
      emit, invoke.
    destruct (put_retention_policy _ _ _ _ _ _) as [[e|[]] w1];
      split; reflexivity.
  - exists done, rest. rewrite flat_map_singleton in Hp. auto.
Qed.

(** X11.  In a region, the conditional script writes the retention of the
    listed log groups whose retention is the trigger, in the order in
    which the pages list them, each with [RETENTION_DAYS], without passing
    over any: its writes are those of the groups with the trigger
    retention among an initial part of the listed groups, and among all
    the listed groups when the region ends well. *)
Theorem every_listed_target_group_is_written W (sdk : aws W)
    (s : CloudWatchTarget.settings) region profile w :
  let run := CloudWatchTarget.set_retention_for_log_groups sdk s region
               profile w in
  exists done rest,
    listed (events_of run) = done ++ rest /\
    retention_puts (events_of run) =
      map (fun log_group =>
             (profile, region, logGroupName log_group,
              CloudWatchTarget.RETENTION_DAYS s))
          (filter (CloudWatchTarget.retention_is_target s) done) /\
    (result_of run = Ok tt -> rest = []).
Proof.
  cbv zeta.
  destruct (@region_writes W sdk (CloudWatchTarget.for_log_group sdk s)
              (fun region profile log_group =>
                 if CloudWatchTarget.retention_is_target s log_group
                 then [(profile, region, logGroupName log_group,
                        CloudWatchTarget.RETENTION_DAYS s)]
                 else []))
    with (region := region) (profile := profile) (w := w)
    as [done [rest [Hl [Hp Hok]]]].
  - intros r p lg w'. unfold CloudWatchTarget.for_log_group.
    destruct (CloudWatchTarget.retention_is_target s lg);
      [|split; reflexivity].
    unfold bind, log_info, emit, invoke.
    destruct (put_retention_policy _ _ _ _ _ _) as [[e|[]] w1];
      split; reflexivity.
  - exists done, rest.
    rewrite (flat_map_filter (CloudWatchTarget.retention_is_target s)) in Hp.
    auto.
Qed.

(** The run of the conditional script in one region of an account in which
    the write to [g2] would fail, were it made: [g1] is written, [g2] and
    [g3] are passed over, and the region ends well. *)
Example target_groups_of_a_region :
  let run := CloudWatchTarget.set_retention_for_log_groups
               Scenarios.frozen_g2 CloudWatchTarget.shipped
               "us-east-1" "accountid" tt in
  result_of run = Ok tt /\
  listed (events_of run) = [Examples.g1; Examples.g2; Examples.g3] /\
  retention_puts (events_of run) = [("accountid", "us-east-1", "g1", 30)].
Proof. repeat split. Qed.

(** The unconditional script in the same account: the write to [g2]
    fails, [g3] is not listed and not written. *)
Example all_groups_of_a_region :
  let run := CloudWatchAll.set_retention_for_log_groups
               Scenarios.frozen_g2 "us-east-1" "accountid" tt in
  result_of run = Raise (ClientError "AccessDeniedException") /\
  listed (events_of run) = [Examples.g1; Examples.g2] /\
  retention_puts (events_of run) =
    [("accountid", "us-east-1", "g1", 30);
     ("accountid", "us-east-1", "g2", 30)].
Proof. repeat split. Qed.

(** ** The log file of the first profile *)

Section FirstLogFile.

Variable W : Type.
Variable sdk : aws W.
Variable regions : list string.
Variable for_log_group : string -> string -> log_group -> M W unit.

Hypothesis for_log_group_never_exits :
  forall region profile log_group,
    never_exits (for_log_group region profile log_group).

Hypothesis for_log_group_starts_nothing :
  forall region profile log_group,
    emits (fun e => started [e] = [])
      (for_log_group region profile log_group).

(** The part of [for_profile] after [setup_logging]. *)
Lemma with_logger_returns profile w :
  exists w1 t1,
    try_except
      (log_info (MsgStarted profile) ;;
       for_each regions (CloudWatch.for_region sdk for_log_group profile) ;;
       log_info (MsgProfileComplete profile) ;;
       ret true)
      (CloudWatch.on_profile_error true profile) w =
    (Ok true, w1, LogInfo (MsgStarted profile) :: t1) /\
    started t1 = [].
Proof.
  assert (Hexit : never_exits
            (for_each regions (CloudWatch.for_region sdk for_log_group profile))).
  { apply never_exits_for_each. intros region.
    unfold CloudWatch.for_region, CloudWatch.set_retention_for_log_groups.
    repeat never_exits_step.
    apply never_exits_for_each_page. intros logGroups.
    apply never_exits_for_each. intros lg. apply for_log_group_never_exits. }
  assert (Hquiet : emits (fun e => started [e] = [])
            (for_each regions (CloudWatch.for_region sdk for_log_group profile))).
  { apply emits_for_each. intros region _.
    unfold CloudWatch.for_region, CloudWatch.set_retention_for_log_groups.
    repeat emits_step; try reflexivity.
    apply emits_for_each_page; [reflexivity|]. intros logGroups.
    apply emits_for_each. intros lg _. apply for_log_group_starts_nothing. }
  specialize (Hexit w). specialize (Hquiet w).
  assert (Hstarted : forall t, Forall (fun e => started [e] = []) t ->
                               started t = []).
  { induction 1 as [|e t He _ IH]; [reflexivity|].
    change (started (e :: t)) with (started ([e] ++ t)).
    unfold started in *. now rewrite flat_map_app, He, IH. }
  unfold try_except, bind, log_info, log_error, emit, ret,
    CloudWatch.on_profile_error.
  destruct (for_each regions _ w) as [[[[]|e|c] w1] t1];
    cbn [result_of events_of fst snd] in *.
  - exists w1, (t1 ++ [LogInfo (MsgProfileComplete profile)]).
    split; [reflexivity|].
    unfold started in *. rewrite flat_map_app. cbn.
    rewrite app_nil_r. now apply Hstarted.
  - exists w1, (t1 ++ [LogError (MsgProfileError profile e);
                       LogError MsgTraceback]).
    split; [cbn; rewrite <- ?app_assoc; reflexivity|].
    unfold started in *. rewrite flat_map_app. cbn.
    rewrite app_nil_r. now apply Hstarted.
  - now destruct (Hexit c).
Qed.

(** The work on a profile whose log file opens. *)
Lemma for_profile_opened logger profile w w0 :
  file_handler sdk profile w = (inr tt, w0) ->
  exists w1 t1,
    CloudWatch.for_profile sdk regions for_log_group logger profile w =
    (Ok true, w1,
     Api (SetupLogging profile) Returned :: LogInfo (MsgStarted profile) :: t1)
    /\ started t1 = [].
Proof.
  intros Hopen.
  destruct (with_logger_returns profile w0) as [w1 [t1 [H Ht1]]].
  exists w1, t1. split; [|exact Ht1].
  unfold CloudWatch.for_profile, CloudWatch.setup_logging, invoke.
  unfold try_except at 1, bind at 1. rewrite Hopen, H. reflexivity.
Qed.

(** The work on a profile whose log file does not open. *)
Lemma for_profile_locked logger profile e w w0 :
  file_handler sdk profile w = (inl e, w0) ->
  CloudWatch.for_profile sdk regions for_log_group logger profile w =
  if logger
  then (Ok true, w0,
        [Api (SetupLogging profile) (Raised e);
         LogError (MsgProfileError profile e); LogError MsgTraceback])
  else (Raise (UnboundLocalError "logger"), w0,
        [Api (SetupLogging profile) (Raised e)]).
Proof.
  intros Hopen.
  unfold CloudWatch.for_profile, CloudWatch.setup_logging, invoke.
  unfold try_except at 1, bind at 1. rewrite Hopen.
  now destruct logger.
Qed.

(** Once [logger] is bound, the work on a profile ends well, also when its
    own log file cannot be opened. *)
Lemma for_profile_with_logger profile w :
  result_of (CloudWatch.for_profile sdk regions for_log_group true profile w)
  = Ok true.
Proof.
  destruct (file_handler sdk profile w) as [[e|[]] w0] eqn:E.
  - now rewrite (@for_profile_locked true profile e w w0 E).
  - destruct (@for_profile_opened true profile w w0 E) as [w1 [t1 [-> _]]].
    reflexivity.
Qed.

Lemma for_profiles_with_logger profiles w :
  result_of (CloudWatch.for_profiles sdk regions for_log_group true profiles w)
  = Ok tt.
Proof.
  revert w. induction profiles as [|profile rest IH]; intros w;
    [reflexivity|].
  rewrite for_profiles_cons.
  pose proof (for_profile_with_logger profile w) as H.
  destruct (CloudWatch.for_profile _ _ _ _ _ _) as [[r w1] t1].
  cbn in H. subst r. apply IH.
Qed.

Lemma first_log_file profile rest w :
  match file_handler sdk profile w with
  | (inr _, _) =>
      result_of (CloudWatch.script sdk (profile :: rest) regions
                   for_log_group w) = Ok tt
  | (inl e, w0) =>
      CloudWatch.script sdk (profile :: rest) regions for_log_group w =
      (Raise (UnboundLocalError "logger"), w0,
       [Api (SetupLogging profile) (Raised e)])
  end.
Proof.
  unfold CloudWatch.script, CloudWatch.process_log_groups, bind.
  rewrite for_profiles_cons.
  destruct (file_handler sdk profile w) as [[e|[]] w0] eqn:E.
  - now rewrite (@for_profile_locked false profile e w w0 E).
  - destruct (@for_profile_opened false profile w w0 E) as [w1 [t1 [-> _]]].
    pose proof (for_profiles_with_logger rest w1) as H.
    destruct (CloudWatch.for_profiles _ _ _ _ _ _) as [[r w2] t2].
    cbn in H. subst r. reflexivity.
Qed.

(** The log file of every profile can be opened. *)
Hypothesis log_files_open :
  forall profile w, exists w', file_handler sdk profile w = (inr tt, w').

Lemma every_profile_is_started logger profiles w :
  started (events_of (CloudWatch.for_profiles sdk regions for_log_group
                        logger profiles w)) = profiles.
Proof.
  revert logger w. induction profiles as [|profile rest IH];
    intros logger w; [reflexivity|].
  rewrite for_profiles_cons.
  destruct (log_files_open profile w) as [w0 Hopen].
  destruct (@for_profile_opened logger profile w w0 Hopen)
    as [w1 [t1 [-> Ht1]]].
  cbn [events_of snd]. specialize (IH true w1).
  change (started ((Api (SetupLogging profile) Returned
                    :: LogInfo (MsgStarted profile) :: t1) ++
                   events_of (CloudWatch.for_profiles sdk regions
                                for_log_group true rest w1)))
    with (profile :: started (t1 ++
                   events_of (CloudWatch.for_profiles sdk regions
                                for_log_group true rest w1))).
  unfold started in *. now rewrite flat_map_app, Ht1, IH.
Qed.

End FirstLogFile.

Lemma all_starts_nothing W (sdk : aws W) region profile log_group :
  emits (fun e => started [e] = [])
    (CloudWatchAll.for_log_group sdk region profile log_group).
Proof.
  unfold CloudWatchAll.for_log_group. repeat emits_step; reflexivity.
Qed.

Lemma target_starts_nothing W (sdk : aws W) s region profile log_group :
  emits (fun e => started [e] = [])
    (CloudWatchTarget.for_log_group sdk s region profile log_group).
Proof.
  unfold CloudWatchTarget.for_log_group. repeat emits_step; reflexivity.
Qed.

(** X12.  Whether a CloudWatch script crashes is decided by the log file
    of its first profile.  If that file opens, the script runs to its end
    whatever fails later, the log files of later profiles included.  If it
    does not open, the handler of [process_log_groups] uses the variable
    [logger] before it was ever assigned: the script ends at once with
    [UnboundLocalError], the error of the log file is not logged, and no
    profile is processed. *)
Theorem first_log_file_decides_the_crash W (sdk : aws W) profile rest
    regions w :
  match file_handler sdk profile w with
  | (inr _, _) =>
      result_of (CloudWatchAll.script sdk (profile :: rest) regions w) = Ok tt
      /\ forall s,
           result_of (CloudWatchTarget.script sdk (profile :: rest) regions
                        s w) = Ok tt
  | (inl e, w0) =>
      CloudWatchAll.script sdk (profile :: rest) regions w =
        (Raise (UnboundLocalError "logger"), w0,
         [Api (SetupLogging profile) (Raised e)])
      /\ forall s,
           CloudWatchTarget.script sdk (profile :: rest) regions s w =
           (Raise (UnboundLocalError "logger"), w0,
            [Api (SetupLogging profile) (Raised e)])
  end.
Proof.
  pose proof (@first_log_file W sdk regions (CloudWatchAll.for_log_group sdk)
                (all_never_exits sdk) (all_starts_nothing sdk)
                profile rest w) as Hall.
  pose proof (fun s =>
                @first_log_file W sdk regions
                  (CloudWatchTarget.for_log_group sdk s)
                  (target_never_exits sdk s) (target_starts_nothing sdk s)
                  profile rest w) as Htarget.
  destruct (file_handler sdk profile w) as [[e|[]] w0]; split; assumption.
Qed.

(** With the log file of the first profile locked the script crashes; with
    that of the second profile locked it logs the error and ends well. *)
Example locked_log_files :
  CloudWatchTarget.script (Scenarios.locked_logs ["a"] Examples.no_log_groups)
    ["a"; "b"] [] CloudWatchTarget.shipped tt =
    (Raise (UnboundLocalError "logger"), tt,
     [Api (SetupLogging "a") (Raised (OSError "Permission denied"))]) /\
  CloudWatchTarget.script (Scenarios.locked_logs ["b"] Examples.no_log_groups)
    ["a"; "b"] [] CloudWatchTarget.shipped tt =
    (Ok tt, tt,
     [Api (SetupLogging "a") Returned; LogInfo (MsgStarted "a");
      LogInfo (MsgProfileComplete "a");
      Api (SetupLogging "b") (Raised (OSError "Permission denied"));
      LogError (MsgProfileError "b" (OSError "Permission denied"));
      LogError MsgTraceback;
      Print "Retention policy update complete. Check the log file for details."]).
Proof. split; reflexivity. Qed.

(** X13.  Where the log files can be opened, the CloudWatch scripts start
    the work on every profile, in the order of the list, whatever fails in
    the regions of the profiles before it. *)
Theorem every_profile_is_processed W (sdk : aws W) profiles regions w :
  (forall profile w, exists w', file_handler sdk profile w = (inr tt, w')) ->
  started (events_of (CloudWatchAll.process_log_groups sdk profiles regions w))
    = profiles /\
  forall s,
    started (events_of (CloudWatchTarget.process_log_groups sdk profiles
                          regions s w)) = profiles.
Proof.
  intros Hlog. split; [|intros s].
  - apply every_profile_is_started; auto.
    + apply all_never_exits.
    + apply all_starts_nothing.
  - apply every_profile_is_started; auto.
    + apply target_never_exits.
    + apply target_starts_nothing.
Qed.

Lemma every_profile_is_processed_witness :
  let sdk := Examples.account [] [] Examples.broken_east in
  started (events_of (CloudWatchAll.process_log_groups sdk ["a"; "b"]
                        CloudWatchAll.regions tt)) = ["a"; "b"] /\
  forall s,
    started (events_of (CloudWatchTarget.process_log_groups sdk ["a"; "b"]
                          CloudWatchAll.regions s tt)) = ["a"; "b"].
Proof.
  apply (@every_profile_is_processed unit
           (Examples.account [] [] Examples.broken_east)
           ["a"; "b"] CloudWatchAll.regions tt).
  intros profile []. now exists tt.
Defined.

(** ** The ends of the prompts *)

Lemma input_until_split prompt complaint choices stdin answer rest t :
  S3PolicySetPrompts.input_until prompt complaint choices stdin =
    (Ok answer, rest, t) ->
  exists refused,
    stdin = refused ++ answer :: rest /\
    Forall (fun line => str_in line choices = false) refused /\
    str_in answer choices = true.
Proof.
  revert t. induction stdin as [|line stdin IH]; intros t; cbn;
    [discriminate|].
  destruct (str_in line choices) eqn:E.
  - intros [= <- <- <-]. exists []. auto.
  - destruct (S3PolicySetPrompts.input_until prompt complaint choices stdin)
      as [[r rest'] t'].
    intros [= -> -> <-].
    destruct (IH t' eq_refl) as [refused [-> [Hrefused Hanswer]]].
    exists (line :: refused). auto.
Qed.

Lemma input_until_raises prompt complaint choices stdin e :
  result_of (S3PolicySetPrompts.input_until prompt complaint choices stdin) =
    Raise e ->
  e = EOFError /\
  world_of (S3PolicySetPrompts.input_until prompt complaint choices stdin) = [].
Proof.
  induction stdin as [|line stdin IH]; cbn; [now intros [= <-]|].
  destruct (str_in line choices); [discriminate|].
  destruct (S3PolicySetPrompts.input_until prompt complaint choices stdin)
    as [[r rest'] t']. exact IH.
Qed.

Lemma int_of_day_choice days :
  In days S3PolicySetPrompts.day_choices -> exists n, int days = inr n.
Proof.
  intros [<-|[<-|[<-|[<-|[<-|[]]]]]]; eexists; reflexivity.
Qed.

(** The outcome of the prompts and the lines they leave, in terms of the
    two loops. *)
Lemma get_lifecycle_input_outcome stdin :
  (result_of (S3PolicySetPrompts.get_lifecycle_input stdin),
   world_of (S3PolicySetPrompts.get_lifecycle_input stdin)) =
  match S3PolicySetPrompts.input_until
          "Enter a number of days (30, 60, 90, 180, 360): "
          "Invalid choice. Please select one of the following options: 30, 60, 90, 180, 360."
          S3PolicySetPrompts.day_choices stdin with
  | (Ok days, stdin1, _) =>
      match S3PolicySetPrompts.input_until
              "Enter the storage class (GLACIER or GLACIER_IR): "
              "Invalid storage class. Please select one of the following: GLACIER, GLACIER_IR."
              S3PolicySetPrompts.class_choices stdin1 with
      | (Ok class, stdin2, _) =>
          (match int days with
           | inr n => Ok (n, class)
           | inl e => Raise e
           end, stdin2)
      | (Raise e, stdin2, _) => (Raise e, stdin2)
      | (Exit code, stdin2, _) => (Exit code, stdin2)
      end
  | (Raise e, stdin1, _) => (Raise e, stdin1)
  | (Exit code, stdin1, _) => (Exit code, stdin1)
  end.
Proof.
  unfold S3PolicySetPrompts.get_lifecycle_input, bind, print, emit.
  destruct (S3PolicySetPrompts.input_until _ _ _ stdin)
    as [[[days|e|c] stdin1] t1]; try reflexivity.
  destruct (S3PolicySetPrompts.input_until _ _ _ stdin1)
    as [[[class|e|c] stdin2] t2]; try reflexivity.
  now destruct (int days).
Qed.


Lemma quiet_calls t :
  Forall (fun e => api_calls [e] = []) t -> api_calls t = [].
Proof.
  induction 1 as [|e t He _ IH]; [reflexivity|].
  change (api_calls (e :: t)) with (api_calls ([e] ++ t)).
  now rewrite api_calls_app, He, IH.
Qed.

Lemma prompts_make_no_call stdin :
  api_calls (events_of (S3PolicySetPrompts.get_lifecycle_input stdin)) = [].
Proof.
  apply quiet_calls. revert stdin.
  change (emits (fun e => api_calls [e] = [])
            S3PolicySetPrompts.get_lifecycle_input).
  unfold S3PolicySetPrompts.get_lifecycle_input.
  repeat first [ apply input_until_emits; intros | emits_step ]; reflexivity.
Qed.

(** The run of [main] of [s3_policy_set_prompts.py] in terms of the runs
    of the prompts and of [process_buckets]. *)
Lemma prompted_main_run W (sdk : aws W) profiles argv stdin w :
  S3PolicySetPrompts.main sdk profiles argv stdin w =
  if Z.of_nat (List.length argv) <? 2
  then (Exit 1, w, [LogError MsgUsage])
  else
    match S3PolicySetPrompts.get_lifecycle_input stdin with
    | (Ok chosen, _, t0) =>
        match S3PolicySetPrompts.process_buckets sdk profiles
                (List.nth 1 argv EmptyString) (fst chosen) (snd chosen) w with
        | (Ok _, w1, t1) =>
            (Ok tt, w1,
             LogInfo MsgStarting :: t0 ++ t1 ++ [LogInfo MsgCompleted])
        | (Raise e, w1, t1) =>
            (Exit 1, w1,
             LogInfo MsgStarting :: t0 ++ t1 ++ [LogError (MsgTerminated e)])
        | (Exit code, w1, t1) => (Exit code, w1, LogInfo MsgStarting :: t0 ++ t1)
        end
    | (Raise e, _, t0) => (Raise e, w, LogInfo MsgStarting :: t0)
    | (Exit code, _, t0) => (Exit code, w, LogInfo MsgStarting :: t0)
    end.
Proof.
  unfold S3PolicySetPrompts.main. destruct (_ <? _); [reflexivity|].
  unfold bind, try_except, log_info, log_error, emit, sys_exit,
    S3PolicySetPrompts.at_terminal.
  destruct (S3PolicySetPrompts.get_lifecycle_input stdin)
    as [[[chosen|e|c] stdin'] t0]; cbn [result_of events_of fst snd];
    try reflexivity.
  now destruct (S3PolicySetPrompts.process_buckets _ _ _ _ _ w)
    as [[[[]|e|c] w1] t1].
Qed.



(** ** The log files of the profiles *)

Lemma deliveries_app handlers t1 t2 :
  deliveries handlers (t1 ++ t2) =
  deliveries handlers t1 ++
  deliveries (handlers ++ flat_map added_handlers t1) t2.
Proof.
  revert handlers. induction t1 as [|e t1 IH]; intros handlers.
  - cbn. now rewrite app_nil_r.
  - cbn [app flat_map deliveries].
    destruct e as [c r|m|m|text|prompt answer];
      try (rewrite IH; cbn [added_handlers app];
           now rewrite ?app_nil_r, <- ?app_assoc).
Qed.

(** A handler of the root logger receives every record logged later. *)
Lemma deliveries_later h handlers t m :
  In h handlers -> In (LogInfo m) t -> In (h, m) (deliveries handlers t).
Proof.
  intros Hh. revert handlers Hh.
  induction t as [|e t IH]; intros handlers Hh Hin; [destruct Hin|].
  destruct Hin as [->|Hin].
  - cbn. apply in_or_app. left. now apply (in_map (fun h => (h, m))).
  - destruct e as [c r|m'|m'|text|prompt answer]; cbn [deliveries];
      try (apply in_or_app; right); apply IH; auto;
      apply in_or_app; now left.
Qed.

Lemma started_in profile t :
  In profile (started t) -> In (LogInfo (MsgStarted profile)) t.
Proof.
  unfold started. rewrite in_flat_map. intros [e [He Hp]].
  destruct e as [c r|[]|m|text|prompt answer]; try contradiction.
  destruct Hp as [<-|[]]. exact He.
Qed.

Section LogFiles.

Variable W : Type.
Variable sdk : aws W.
Variable regions : list string.
Variable for_log_group : string -> string -> log_group -> M W unit.

Hypothesis for_log_group_never_exits :
  forall region profile log_group,
    never_exits (for_log_group region profile log_group).

Hypothesis for_log_group_starts_nothing :
  forall region profile log_group,
    emits (fun e => started [e] = [])
      (for_log_group region profile log_group).

Hypothesis log_files_open :
  forall profile w, exists w', file_handler sdk profile w = (inr tt, w').

(** The profile [later] is started after the log file of [earlier] was
    set up. *)
Lemma later_profile_starts_after logger before earlier between later after w :
  exists t1 t2,
    events_of (CloudWatch.for_profiles sdk regions for_log_group logger
                 (before ++ earlier :: between ++ later :: after) w) =
    t1 ++ Api (SetupLogging earlier) Returned :: t2 /\
    In (LogInfo (MsgStarted later)) t2.
Proof.
  revert logger w. induction before as [|profile before IH]; intros logger w;
    cbn [app]; rewrite for_profiles_cons.
  - destruct (log_files_open earlier w) as [w0 Hopen].
    destruct (@for_profile_opened W sdk regions for_log_group
                for_log_group_never_exits for_log_group_starts_nothing
                logger earlier w w0 Hopen) as [w1 [t1 [-> _]]].
    cbn [events_of snd].
    exists [], (LogInfo (MsgStarted earlier) :: t1 ++
                events_of (CloudWatch.for_profiles sdk regions for_log_group
                             true (between ++ later :: after) w1)).
    split; [reflexivity|].
    right. apply in_or_app. right. apply started_in.
    rewrite (@every_profile_is_started W sdk regions for_log_group
               for_log_group_never_exits for_log_group_starts_nothing
               log_files_open).
    apply in_or_app. right. now left.
  - destruct (log_files_open profile w) as [w0 Hopen].
    destruct (@for_profile_opened W sdk regions for_log_group
                for_log_group_never_exits for_log_group_starts_nothing
                logger profile w w0 Hopen) as [w1 [t1 [-> _]]].
    cbn [events_of snd].
    destruct (IH true w1) as [t2 [t3 [-> Hin]]].
    eexists (_ ++ t2), t3. split; [|exact Hin].
    now rewrite <- app_assoc.
Qed.

Lemma earlier_log_file_receives logger before earlier between later after w :
  In (FileHandler earlier, MsgStarted later)
     (deliveries []
        (events_of (CloudWatch.for_profiles sdk regions for_log_group logger
                      (before ++ earlier :: between ++ later :: after) w))).
Proof.
  destruct (later_profile_starts_after logger before earlier between later
              after w) as [t1 [t2 [-> Hin]]].
  rewrite deliveries_app. apply in_or_app. right.
  cbn [deliveries]. apply deliveries_later; [|exact Hin].
  apply in_or_app. right. now left.
Qed.

End LogFiles.

(** X16.  The loggers of the profiles are not separate.  [setup_logging]
    adds the handlers of each profile to the one root logger and none is
    ever removed, so where the log files can be opened, the records of a
    profile are also written to the log file of every profile processed
    before it: the record that the work on the later profile has started
    is delivered to the file handler of the earlier one. *)
Theorem log_files_receive_later_profiles W (sdk : aws W) regions
    before earlier between later after w :
  (forall profile w, exists w', file_handler sdk profile w = (inr tt, w')) ->
  let profiles := before ++ earlier :: between ++ later :: after in
  In (FileHandler earlier, MsgStarted later)
     (deliveries []
        (events_of (CloudWatchAll.process_log_groups sdk profiles regions w)))
  /\
  forall s,
    In (FileHandler earlier, MsgStarted later)
       (deliveries []
          (events_of (CloudWatchTarget.process_log_groups sdk profiles
                        regions s w))).
Proof.
  intros Hlog profiles. split; [|intros s].
  - apply earlier_log_file_receives; auto.
    + apply all_never_exits.
    + apply all_starts_nothing.
  - apply earlier_log_file_receives; auto.
    + apply target_never_exits.
    + apply target_starts_nothing.
Qed.

Lemma log_files_receive_later_profiles_witness :
  let sdk := Examples.account [] [] Examples.healthy_regions in
  In (FileHandler "a", MsgStarted "b")
     (deliveries []
        (events_of (CloudWatchAll.process_log_groups sdk ["a"; "b"]
                      ["us-east-1"] tt)))
  /\
  forall s,
    In (FileHandler "a", MsgStarted "b")
       (deliveries []
          (events_of (CloudWatchTarget.process_log_groups sdk ["a"; "b"]
                        ["us-east-1"] s tt))).
Proof.
  apply (@log_files_receive_later_profiles unit
           (Examples.account [] [] Examples.healthy_regions)
           ["us-east-1"] [] "a" [] "b" [] tt).
  intros profile []. now exists tt.
Defined.
